(** * The join-reporter bot (src/bot.py): event filter and relay engine

    A shallow embedding of the handlers of [bot.py] and of the two helpers
    they share, [relay] and [guild_is_watched].  The chat-platform client
    (discord.py) is not part of the program: it is a [Platform], a state
    (the client's caches, the remote service, the clock) with the
    operations the program calls on it.  Every handler is a computation
    in a small monad that threads the platform state, may end by a Python
    exception, and records what it did in a trace. *)

From Stdlib Require Import ZArith List String Ascii Bool Lia.
Import ListNotations.

Local Open Scope Z_scope.

(** ** Data of the platform library, as the program sees it *)

(** Channel classes the program tests with [isinstance]. *)
Inductive channel_kind :=
| TextChannel | VoiceChannel | StageChannel | ForumChannel
| CategoryChannel | Thread | DMChannel.

Definition channel_kind_eqb (a b : channel_kind) : bool :=
  match a, b with
  | TextChannel, TextChannel | VoiceChannel, VoiceChannel
  | StageChannel, StageChannel | ForumChannel, ForumChannel
  | CategoryChannel, CategoryChannel | Thread, Thread
  | DMChannel, DMChannel => true
  | _, _ => false
  end.

Record Guild := { guild_id : Z; guild_name : string }.

Record Channel := { ch_id : Z; ch_name : string; ch_kind : channel_kind }.

Record Member := {
  member_id : Z;
  member_name : string;
  member_guild : Guild;
  member_roles : list Z
}.

Record Permissions := { view_channel : bool }.

(** [VoiceState.channel] is [None] when the member is not in voice. *)
Record VoiceState := { vs_channel : option Channel }.

(** [isinstance(ch, cls)] and [isinstance(ch, (cls1, cls2, ...))]. *)
Definition isinstance (ch : Channel) (classes : list channel_kind) : bool :=
  existsb (channel_kind_eqb (ch_kind ch)) classes.
Arguments isinstance : simpl never.

(** [a == b] on channel objects: the library's objects compare equal when
    they are of the same class and carry the same id; [None] equals only
    [None]. *)
Definition channel_eqb (a b : Channel) : bool :=
  channel_kind_eqb (ch_kind a) (ch_kind b) && (ch_id a =? ch_id b).

Definition opt_channel_eqb (a b : option Channel) : bool :=
  match a, b with
  | Some x, Some y => channel_eqb x y
  | None, None => true
  | _, _ => false
  end.

(** ** Exceptions

    The concrete class of a raised exception.  [HTTPException] stands
    for a [discord.HTTPException] that is neither [NotFound] nor
    [Forbidden] (a failed request with another status); [OtherException]
    for any [Exception] outside that hierarchy ([asyncio.TimeoutError],
    an aiohttp connection error, [AttributeError], ...).  Conditions
    that are not [Exception]s (task cancellation, interpreter exit) are
    not modelled. *)
Inductive exn := NotFound | Forbidden | HTTPException | OtherException.

(** The classes named in the program's [except] clauses. *)
Inductive exn_class := CNotFound | CForbidden | CHTTPException | CException.

(** [isinstance(e, c)] along the library's hierarchy:
    [NotFound] and [Forbidden] derive from [HTTPException], everything
    from [Exception]. *)
Definition exn_isinstance (e : exn) (c : exn_class) : bool :=
  match c, e with
  | CException, _ => true
  | CHTTPException, (NotFound | Forbidden | HTTPException) => true
  | CNotFound, NotFound => true
  | CForbidden, Forbidden => true
  | _, _ => false
  end.

Definition caught (e : exn) (classes : list exn_class) : bool :=
  existsb (exn_isinstance e) classes.

(** ** Configuration (the module-level constants read from the environment)

    The three watch sets are Python sets of integers; a list gives their
    elements in the order the [for] loop meets them. *)
Record Config := {
  RELAY_CHANNEL_ID : Z;
  MY_USER_ID : Z;
  WATCH_GUILD_IDS : list Z;
  WATCH_TEXT_CHANNEL_IDS : list Z;
  WATCH_VOICE_CHANNEL_IDS : list Z
}.

(** [x in s] for a set of integers. *)
Definition mem (x : Z) (s : list Z) : bool := existsb (Z.eqb x) s.

(** Truth value of a set: non-empty. *)
Definition truthy (s : list Z) : bool :=
  match s with [] => false | _ :: _ => true end.

(** ** Wall-clock time and [strftime] *)

Record datetime := {
  year : Z; month : Z; day : Z; hour : Z; minute : Z; second : Z
}.

(** The ranges the [datetime] type enforces, with a four-digit year. *)
Definition valid_datetime (d : datetime) : Prop :=
  1000 <= year d <= 9999 /\ 1 <= month d <= 12 /\ 1 <= day d <= 31 /\
  0 <= hour d <= 23 /\ 0 <= minute d <= 59 /\ 0 <= second d <= 59.

Definition digit (d : Z) : ascii := ascii_of_nat (48 + Z.to_nat d).

(** Decimal digits of a non-negative integer, least significant first. *)
Fixpoint decimal_rev (fuel : nat) (n : Z) : list ascii :=
  match fuel with
  | O => []
  | S f => digit (n mod 10) ::
           (if n / 10 =? 0 then [] else decimal_rev f (n / 10))
  end.

Definition decimal (n : Z) : list ascii :=
  rev (decimal_rev (S (Z.to_nat n)) n).

(** [%0<width>d]: at least [width] digits, padded with zeros on the left. *)
Definition zero_pad (width : nat) (n : Z) : string :=
  let d := decimal n in
  string_of_list_ascii (repeat "0"%char (width - List.length d)%nat ++ d)%list.

(** [d.strftime("%Y-%m-%d %H:%M:%S UTC")]. *)
Definition strftime (d : datetime) : string :=
  (zero_pad 4 (year d) ++ "-" ++ zero_pad 2 (month d) ++ "-" ++
   zero_pad 2 (day d) ++ " " ++ zero_pad 2 (hour d) ++ ":" ++
   zero_pad 2 (minute d) ++ ":" ++ zero_pad 2 (second d) ++ " UTC")%string.

Definition is_digit (c : ascii) : bool :=
  ((48 <=? nat_of_ascii c) && (nat_of_ascii c <=? 57))%nat.

(** A string has the shape of a pattern when it has the pattern's length
    and agrees with it character by character, a [d] of the pattern
    standing for any decimal digit. *)
Fixpoint has_shape (pattern s : string) : bool :=
  match pattern, s with
  | EmptyString, EmptyString => true
  | String p pattern', String c s' =>
      (if Ascii.eqb p "d" then is_digit c else Ascii.eqb p c)
      && has_shape pattern' s'
  | _, _ => false
  end.

(** [YYYY-MM-DD HH:MM:SS UTC]. *)
Definition timestamp_pattern : string := "dddd-dd-dd dd:dd:dd UTC".

(** ** The platform

    What the program asks of the client library.  Cache reads
    ([get_channel], [get_member], [guild_get_channel]) and the clock do
    not change the state; the remote calls may fail with an exception and
    return the state they leave behind.  [permissions_for] computes on
    the objects it is given and on the roles and overwrites the client
    holds, without a remote call. *)
Record Platform := {
  world : Type;
  get_channel : world -> Z -> option Channel;
  fetch_channel : Z -> world -> (exn + Channel) * world;
  send : Channel -> string -> world -> (exn + unit) * world;
  get_member : world -> Guild -> Z -> option Member;
  fetch_member : Guild -> Z -> world -> (exn + Member) * world;
  guild_get_channel : world -> Guild -> Z -> option Channel;
  permissions_for : world -> Channel -> Member -> exn + Permissions;
  utcnow : world -> datetime
}.

(** ** Traces *)

Inductive log_level := ERROR | WARNING.

(** What a run did, in order.  [EvRelay] marks an entry into [relay]
    ("a relay call"); the others are the calls on the platform and the
    log records, a record being its level, format string and argument. *)
Inductive event :=
| EvRelay (text : string)
| EvFetchChannel (id : Z)
| EvFetchMember (g : Guild) (user : Z)
| EvSend (ch : Channel) (text : string)
| EvLog (level : log_level) (fmt : string) (arg : Z).

Definition is_send (e : event) : bool :=
  match e with EvSend _ _ => true | _ => false end.

Definition is_remote (e : event) : bool :=
  match e with
  | EvFetchChannel _ | EvFetchMember _ _ | EvSend _ _ => true
  | _ => false
  end.

(** The texts handed to [relay], in order. *)
Fixpoint relay_calls (t : list event) : list string :=
  match t with
  | [] => []
  | EvRelay text :: t' => text :: relay_calls t'
  | _ :: t' => relay_calls t'
  end.

(** The remote channel fetches of a trace. *)
Definition fetches (t : list event) : list event :=
  filter (fun e => match e with EvFetchChannel _ => true | _ => false end) t.

Definition sends (t : list event) : list event := filter is_send t.

(** ** The monad of handlers *)

Inductive outcome (A : Type) :=
| Returned (a : A)
| Raised (e : exn).
Arguments Returned {A} a.
Arguments Raised {A} e.

Record run (W A : Type) := Run {
  res : outcome A;
  post : W;
  trace : list event
}.
Arguments Run {W A} res post trace.
Arguments res {W A} r.
Arguments post {W A} r.
Arguments trace {W A} r.

Definition M (W A : Type) : Type := W -> run W A.

(** [after t r]: the run [r] taking place after the events [t]. *)
Definition after {W A} (t : list event) (r : run W A) : run W A :=
  Run (res r) (post r) (t ++ trace r).

Definition ret {W A} (a : A) : M W A := fun w => Run (Returned a) w [].

Definition raise {W A} (e : exn) : M W A := fun w => Run (Raised e) w [].

Definition bind {W A B} (m : M W A) (f : A -> M W B) : M W B :=
  fun w =>
    let r := m w in
    match res r with
    | Returned a => after (trace r) (f a (post r))
    | Raised e => Run (Raised e) (post r) (trace r)
    end.

Notation "x <- m ;; k" := (bind m (fun x => k))
  (at level 61, m at next level, right associativity).
Notation "m ;; k" := (bind m (fun _ => k))
  (at level 61, right associativity).

(** [try: body / except classes: handler]. *)
Definition try_except {W A} (body : M W A) (classes : list exn_class)
    (handler : exn -> M W A) : M W A :=
  fun w =>
    let r := body w in
    match res r with
    | Returned _ => r
    | Raised e =>
        if caught e classes then after (trace r) (handler e (post r)) else r
    end.

Definition emit {W} (e : event) : M W unit := fun w => Run (Returned tt) w [e].

Definition of_result {A} (r : exn + A) : outcome A :=
  match r with inl e => Raised e | inr a => Returned a end.

(** ** The program *)

Section Bot.

Variable P : Platform.
Variable cfg : Config.

Let W : Type := world P.

(** *** Calls on the platform *)

Definition client_get_channel (id : Z) : M W (option Channel) :=
  fun w => Run (Returned (get_channel P w id)) w [].

Definition client_fetch_channel (id : Z) : M W Channel :=
  fun w =>
    let '(r, w') := fetch_channel P id w in
    Run (of_result r) w' [EvFetchChannel id].

Definition channel_send (ch : Channel) (text : string) : M W unit :=
  fun w =>
    let '(r, w') := send P ch text w in
    Run (of_result r) w' [EvSend ch text].

Definition guild_get_member (g : Guild) (user : Z) : M W (option Member) :=
  fun w => Run (Returned (get_member P w g user)) w [].

Definition guild_fetch_member (g : Guild) (user : Z) : M W Member :=
  fun w =>
    let '(r, w') := fetch_member P g user w in
    Run (of_result r) w' [EvFetchMember g user].

Definition guild_channel (g : Guild) (id : Z) : M W (option Channel) :=
  fun w => Run (Returned (guild_get_channel P w g id)) w [].

Definition channel_permissions_for (ch : Channel) (m : Member)
  : M W Permissions :=
  fun w => Run (of_result (permissions_for P w ch m)) w [].

Definition log_error (fmt : string) (arg : Z) : M W unit :=
  emit (EvLog ERROR fmt arg).

Definition log_warning (fmt : string) (arg : Z) : M W unit :=
  emit (EvLog WARNING fmt arg).

(** [x.name] where [x] may be [None]: an [AttributeError] then. *)
Definition name_of (c : option Channel) : M W string :=
  match c with
  | Some ch => ret (ch_name ch)
  | None => raise OtherException
  end.

(** *** Helpers *)

Definition now_utc_str : M W string :=
  fun w => Run (Returned (strftime (utcnow P w))) w [].

(** The first half of [relay]: the destination from the cache, else from
    one remote fetch; [None] is the [return] of the [except] branch. *)
Definition resolve_relay_channel : M W (option Channel) :=
  ch <- client_get_channel (RELAY_CHANNEL_ID cfg) ;;
  match ch with
  | Some c => ret (Some c)
  | None =>
      try_except
        (c <- client_fetch_channel (RELAY_CHANNEL_ID cfg) ;; ret (Some c))
        [CException]
        (fun _ =>
           log_error "Relay channel not found (id=%s)" (RELAY_CHANNEL_ID cfg) ;;
           ret None)
  end.

Definition relay (text : string) : M W unit :=
  emit (EvRelay text) ;;
  r <- resolve_relay_channel ;;
  match r with
  | None => ret tt
  | Some ch =>
      if isinstance ch [TextChannel] then
        try_except
          (channel_send ch text)
          [CForbidden]
          (fun _ =>
             log_warning "No permission to send in relay channel %s" (ch_id ch))
      else
        log_error "Relay channel wrong type (id=%s)" (RELAY_CHANNEL_ID cfg)
  end.

Definition guild_is_watched (guild : Guild) : M W bool :=
  if truthy (WATCH_GUILD_IDS cfg)
     && negb (mem (guild_id guild) (WATCH_GUILD_IDS cfg))
  then ret false
  else
    me <- guild_get_member guild (MY_USER_ID cfg) ;;
    match me with
    | Some _ => ret true
    | None =>
        try_except
          (guild_fetch_member guild (MY_USER_ID cfg) ;; ret true)
          [CNotFound; CForbidden; CHTTPException]
          (fun _ => ret false)
    end.

(** *** Event handlers *)

Definition on_member_join (member : Member) : M W unit :=
  watched <- guild_is_watched (member_guild member) ;;
  if negb watched then ret tt
  else
    ts <- now_utc_str ;;
    relay (member_name member ++ " joined : "
           ++ guild_name (member_guild member) ++ " at " ++ ts)%string.

(** The body of the [for] loop of [on_member_update], for one channel id;
    returning is the loop's [continue] or the end of the body. *)
Definition member_update_body (before after_ : Member) (id : Z) : M W unit :=
  ch <- guild_channel (member_guild after_) id ;;
  match ch with
  | None => ret tt
  | Some ch =>
      if negb (isinstance ch [TextChannel; ForumChannel; CategoryChannel])
      then ret tt
      else
        cans <- try_except
                  (b <- channel_permissions_for ch before ;;
                   a <- channel_permissions_for ch after_ ;;
                   ret (Some (view_channel b, view_channel a)))
                  [CException]
                  (fun _ => ret None) ;;
        match cans with
        | None => ret tt
        | Some (before_can, after_can) =>
            if negb before_can && after_can then
              ts <- now_utc_str ;;
              relay (member_name after_ ++ " gained access to : #"
                     ++ ch_name ch ++ " in "
                     ++ guild_name (member_guild after_) ++ " at " ++ ts)%string
            else ret tt
        end
  end.

Fixpoint member_update_loop (before after_ : Member) (ids : list Z)
  : M W unit :=
  match ids with
  | [] => ret tt
  | id :: rest =>
      member_update_body before after_ id ;;
      member_update_loop before after_ rest
  end.

Definition on_member_update (before after_ : Member) : M W unit :=
  if negb (truthy (WATCH_TEXT_CHANNEL_IDS cfg)) then ret tt
  else
    watched <- guild_is_watched (member_guild after_) ;;
    if negb watched then ret tt
    else member_update_loop before after_ (WATCH_TEXT_CHANNEL_IDS cfg).

Definition in_watch (vch : option Channel) : bool :=
  match vch with
  | Some c => mem (ch_id c) (WATCH_VOICE_CHANNEL_IDS cfg)
  | None => false
  end.

Definition on_voice_state_update (member : Member) (before after_ : VoiceState)
  : M W unit :=
  if negb (truthy (WATCH_VOICE_CHANNEL_IDS cfg)) then ret tt
  else
    watched <- guild_is_watched (member_guild member) ;;
    if negb watched then ret tt
    else if negb (opt_channel_eqb (vs_channel after_) (vs_channel before)) then
      if in_watch (vs_channel after_) && negb (in_watch (vs_channel before))
      then
        a <- name_of (vs_channel after_) ;;
        ts <- now_utc_str ;;
        relay (member_name member ++ " joined voice : #" ++ a ++ " in "
               ++ guild_name (member_guild member) ++ " at " ++ ts)%string
      else if in_watch (vs_channel before)
              && negb (in_watch (vs_channel after_))
      then
        b <- name_of (vs_channel before) ;;
        ts <- now_utc_str ;;
        relay (member_name member ++ " left voice : #" ++ b ++ " in "
               ++ guild_name (member_guild member) ++ " at " ++ ts)%string
      else if in_watch (vs_channel before) && in_watch (vs_channel after_)
      then
        b <- name_of (vs_channel before) ;;
        a <- name_of (vs_channel after_) ;;
        ts <- now_utc_str ;;
        relay (member_name member ++ " moved voice : #" ++ b ++ " → #" ++ a
               ++ " in " ++ guild_name (member_guild member)
               ++ " at " ++ ts)%string
      else ret tt
    else ret tt.

(** *** The gateway's events and the handler registered for each *)

Inductive gateway_event :=
| MemberJoin (member : Member)
| MemberUpdate (before after_ : Member)
| VoiceStateUpdate (member : Member) (before after_ : VoiceState).

Definition event_guild (ev : gateway_event) : Guild :=
  match ev with
  | MemberJoin m => member_guild m
  | MemberUpdate _ a => member_guild a
  | VoiceStateUpdate m _ _ => member_guild m
  end.

Definition handle (ev : gateway_event) : M W unit :=
  match ev with
  | MemberJoin m => on_member_join m
  | MemberUpdate b a => on_member_update b a
  | VoiceStateUpdate m b a => on_voice_state_update m b a
  end.

End Bot.

Arguments relay P cfg text w : rename.

(** ** The voice rule of the specification (section 4.4)

    Written from the specification's words, to be compared with
    [on_voice_state_update].  A location is in the watch set when it is a
    channel whose id is in the set; an absent location is in no set. *)
Inductive voice_outcome :=
| JoinedVoice (dst : Channel)
| LeftVoice (src : Channel)
| MovedVoice (src dst : Channel)
| NoOutput.

Definition watched_location (watch : list Z) (loc : option Channel)
  : option Channel :=
  match loc with
  | Some c => if mem (ch_id c) watch then Some c else None
  | None => None
  end.

Definition voice_rule (watch : list Z) (before after_ : option Channel)
  : voice_outcome :=
  if opt_channel_eqb before after_ then NoOutput
  else
    match watched_location watch after_, watched_location watch before with
    | Some a, None => JoinedVoice a
    | None, Some b => LeftVoice b
    | Some a, Some b => MovedVoice b a
    | None, None => NoOutput
    end.

(** The line reported for an outcome, [None] when nothing is reported. *)
Definition voice_line (member : Member) (o : voice_outcome) (ts : string)
  : option string :=
  match o with
  | JoinedVoice a =>
      Some (member_name member ++ " joined voice : #" ++ ch_name a ++ " in "
            ++ guild_name (member_guild member) ++ " at " ++ ts)%string
  | LeftVoice b =>
      Some (member_name member ++ " left voice : #" ++ ch_name b ++ " in "
            ++ guild_name (member_guild member) ++ " at " ++ ts)%string
  | MovedVoice b a =>
      Some (member_name member ++ " moved voice : #" ++ ch_name b ++ " → #"
            ++ ch_name a ++ " in " ++ guild_name (member_guild member)
            ++ " at " ++ ts)%string
  | NoOutput => None
  end.

(** Shapes of the zero-padded fields, for the proof about [strftime]. *)
Definition in_range_all (f : Z -> bool) (lo len : Z) : bool :=
  forallb f (map (fun k => lo + Z.of_nat k) (seq 0 (Z.to_nat len))).

(** ** A concrete platform for examples

    A platform described by a table of answers, which no call changes.
    In particular its [fetch_channel] answers from the remote side and
    leaves the client's channel cache as it was; this is what the client
    library's [Client.fetch_channel] does, which builds the channel from
    the answer to its request and returns it, the cache being filled
    from gateway events only. *)
Record scenario := {
  sc_cached_channel : option Channel;
  sc_remote_channel : exn + Channel;
  sc_send : exn + unit;
  sc_cached_me : option Member;
  sc_remote_me : exn + Member;
  sc_guild_channels : list Channel;
  sc_permissions : Channel -> Member -> exn + Permissions;
  sc_clock : datetime
}.

Definition find_channel (id : Z) (l : list Channel) : option Channel :=
  find (fun c => ch_id c =? id) l.

Definition table_platform : Platform := {|
  world := scenario;
  get_channel := fun w _ => sc_cached_channel w;
  fetch_channel := fun _ w => (sc_remote_channel w, w);
  send := fun _ _ w => (sc_send w, w);
  get_member := fun w _ _ => sc_cached_me w;
  fetch_member := fun _ _ w => (sc_remote_me w, w);
  guild_get_channel := fun w _ id => find_channel id (sc_guild_channels w);
  permissions_for := sc_permissions;
  utcnow := sc_clock
|}.


(** The objects of the specification's scenarios. *)
Definition guild_G : Guild := {| guild_id := 1; guild_name := "G" |}.
Definition guild_H : Guild := {| guild_id := 2; guild_name := "H" |}.

Definition operator : Member :=
  {| member_id := 10; member_name := "operator"; member_guild := guild_G;
     member_roles := [] |}.

(** alice before and after she is given role 5, and her namesake in [H]. *)
Definition alice_before : Member :=
  {| member_id := 20; member_name := "alice"; member_guild := guild_G;
     member_roles := [] |}.
Definition alice : Member :=
  {| member_id := 20; member_name := "alice"; member_guild := guild_G;
     member_roles := [5] |}.
Definition alice_in_H : Member :=
  {| member_id := 20; member_name := "alice"; member_guild := guild_H;
     member_roles := [] |}.

Definition relay_channel : Channel :=
  {| ch_id := 7; ch_name := "relay"; ch_kind := TextChannel |}.
Definition relay_category : Channel :=
  {| ch_id := 7; ch_name := "relay"; ch_kind := CategoryChannel |}.
Definition staff : Channel :=
  {| ch_id := 41; ch_name := "staff"; ch_kind := TextChannel |}.
Definition general : Channel :=
  {| ch_id := 42; ch_name := "general"; ch_kind := TextChannel |}.
Definition voice_lounge : Channel :=
  {| ch_id := 99; ch_name := "voice-lounge"; ch_kind := VoiceChannel |}.
Definition afk : Channel :=
  {| ch_id := 98; ch_name := "afk"; ch_kind := VoiceChannel |}.

Definition demo_cfg : Config := {|
  RELAY_CHANNEL_ID := 7;
  MY_USER_ID := 10;
  WATCH_GUILD_IDS := [1];
  WATCH_TEXT_CHANNEL_IDS := [41; 42];
  WATCH_VOICE_CHANNEL_IDS := [99]
|}.

(** No optional watch set configured. *)
Definition bare_cfg : Config := {|
  RELAY_CHANNEL_ID := 7;
  MY_USER_ID := 10;
  WATCH_GUILD_IDS := [];
  WATCH_TEXT_CHANNEL_IDS := [];
  WATCH_VOICE_CHANNEL_IDS := []
|}.

(** Role 5 grants the view of every channel; the overwrites of [staff]
    are malformed and make the computation fail. *)
Definition demo_permissions (ch : Channel) (m : Member) : exn + Permissions :=
  if ch_id ch =? 41 then inl OtherException
  else inr {| view_channel := mem 5 (member_roles m) |}.

Definition demo_clock : datetime :=
  {| year := 2024; month := 5; day := 17;
     hour := 9; minute := 30; second := 5 |}.

(** Everything cached, every call succeeding. *)
Definition w_ok : scenario := {|
  sc_cached_channel := Some relay_channel;
  sc_remote_channel := inr relay_channel;
  sc_send := inr tt;
  sc_cached_me := Some operator;
  sc_remote_me := inr operator;
  sc_guild_channels := [staff; general; voice_lounge; afk];
  sc_permissions := demo_permissions;
  sc_clock := demo_clock
|}.

(** The operator is in neither the cache nor the community. *)
Definition w_operator_absent : scenario := {|
  sc_cached_channel := Some relay_channel;
  sc_remote_channel := inr relay_channel;
  sc_send := inr tt;
  sc_cached_me := None;
  sc_remote_me := inl NotFound;
  sc_guild_channels := [staff; general; voice_lounge; afk];
  sc_permissions := demo_permissions;
  sc_clock := demo_clock
|}.

(** The send fails with a server error. *)
Definition w_send_fails : scenario := {|
  sc_cached_channel := Some relay_channel;
  sc_remote_channel := inr relay_channel;
  sc_send := inl HTTPException;
  sc_cached_me := Some operator;
  sc_remote_me := inr operator;
  sc_guild_channels := [staff; general; voice_lounge; afk];
  sc_permissions := demo_permissions;
  sc_clock := demo_clock
|}.

(** The relay channel is not cached; the remote side knows it. *)
Definition w_uncached : scenario := {|
  sc_cached_channel := None;
  sc_remote_channel := inr relay_channel;
  sc_send := inr tt;
  sc_cached_me := Some operator;
  sc_remote_me := inr operator;
  sc_guild_channels := [staff; general; voice_lounge; afk];
  sc_permissions := demo_permissions;
  sc_clock := demo_clock
|}.

(** The relay channel is not cached and cannot be fetched. *)
Definition w_unreachable : scenario := {|
  sc_cached_channel := None;
  sc_remote_channel := inl NotFound;
  sc_send := inr tt;
  sc_cached_me := Some operator;
  sc_remote_me := inr operator;
  sc_guild_channels := [staff; general; voice_lounge; afk];
  sc_permissions := demo_permissions;
  sc_clock := demo_clock
|}.

(** ** Reading the watch sets: [_parse_id_list]

    The text of an environment variable is taken to be ASCII and short
    enough for [int] (at most 4300 characters, the interpreter's limit on
    the digits of one conversion); [plain_text] says so.  On such text
    [str.strip], [str.isdigit] and [int] are what follows. *)

Definition is_ascii (c : ascii) : bool := (nat_of_ascii c <? 128)%nat.

Fixpoint all_chars (p : ascii -> bool) (s : string) : bool :=
  match s with
  | EmptyString => true
  | String c s' => p c && all_chars p s'
  end.

Definition plain_text (s : string) : Prop :=
  all_chars is_ascii s = true /\ (String.length s <= 4300)%nat.

(** Whitespace for [str.strip]: tab to carriage return, the four
    separators 28 to 31, and the space. *)
Definition is_space (c : ascii) : bool :=
  let n := nat_of_ascii c in
  (((9 <=? n) && (n <=? 13)) || ((28 <=? n) && (n <=? 32)))%nat.

Fixpoint lstrip (s : string) : string :=
  match s with
  | EmptyString => EmptyString
  | String c s' => if is_space c then lstrip s' else s
  end.

Definition string_rev (s : string) : string :=
  string_of_list_ascii (rev (list_ascii_of_string s)).

Definition rstrip (s : string) : string := string_rev (lstrip (string_rev s)).

(** [s.strip()]. *)
Definition strip (s : string) : string := rstrip (lstrip s).

(** [s.split(sep)] for a one-character separator: never an empty list. *)
Fixpoint split (sep : ascii) (s : string) : list string :=
  match s with
  | EmptyString => [EmptyString]
  | String c s' =>
      if Ascii.eqb c sep then EmptyString :: split sep s'
      else
        match split sep s' with
        | t :: ts => String c t :: ts
        | [] => [String c EmptyString]
        end
  end.

(** [s.isdigit()]: at least one character, all of them digits. *)
Definition isdigit (s : string) : bool :=
  match s with
  | EmptyString => false
  | String _ _ => all_chars is_digit s
  end.

Definition digit_value (c : ascii) : Z := Z.of_nat (nat_of_ascii c) - 48.

(** [int(s)] for a string of digits. *)
Definition int_of_digits (s : string) : Z :=
  fold_left (fun acc c => 10 * acc + digit_value c) (list_ascii_of_string s) 0.

(** The set a comprehension builds: each element once. *)
Fixpoint set_of (l : list Z) : list Z :=
  match l with
  | [] => []
  | x :: l' => if mem x l' then set_of l' else x :: set_of l'
  end.

Definition _parse_id_list (raw : option string) : list Z :=
  let text := match raw with Some s => s | None => EmptyString end in
  set_of
    (map (fun x => int_of_digits (strip x))
       (filter (fun x => isdigit (strip x)) (split "," text))).

(** [str(n)] for an integer, and [sep.join(parts)]. *)
Definition str_of_int (n : Z) : string :=
  if n <? 0 then String "-" (string_of_list_ascii (decimal (- n)))
  else string_of_list_ascii (decimal n).

Fixpoint join (sep : string) (parts : list string) : string :=
  match parts with
  | [] => EmptyString
  | [p] => p
  | p :: rest => (p ++ sep ++ join sep rest)%string
  end.

(** ** Properties of traces, for the statements about the handlers *)



(** The text of a variable that is unset, empty, or made of blanks and
    commas only. *)
Definition blank (raw : option string) : Prop :=
  match raw with
  | None => True
  | Some s => all_chars (fun c => is_space c || Ascii.eqb c ",") s = true
  end.



(** ** Startup diagnostics: [on_ready]

    [client.user] (as [str] writes it) and [client.guilds] are read from
    the client's state.  [print] is taken to succeed; what [on_ready]
    printed, line by line, is the value of the computation. *)

(** [getattr(ch, 'name', 'NOT FOUND')]: a direct-message channel has no
    [name]. *)
Definition name_or_not_found (ch : Channel) : string :=
  match ch_kind ch with
  | DMChannel => "NOT FOUND"
  | _ => ch_name ch
  end.

Section Ready.

Variable P : Platform.
Variable cfg : Config.
Variable client_user : world P -> string.
Variable client_guilds : world P -> list Guild.

(** [f"{g.name}({g.id})"]. *)
Definition guild_label (g : Guild) : string :=
  (guild_name g ++ "(" ++ str_of_int (guild_id g) ++ ")")%string.

Definition ready_line (w : world P) : string :=
  ("✅ Ready as " ++ client_user w ++ " | Watching "
   ++ str_of_int (Z.of_nat (List.length (client_guilds w))) ++ " guilds: "
   ++ join ", " (map guild_label (client_guilds w)))%string.

Definition on_ready : M (world P) (list string) :=
  fun w =>
    let first := ready_line w in
    try_except
      (ch <- (cached <- client_get_channel P (RELAY_CHANNEL_ID cfg) ;;
              match cached with
              | Some c => ret c
              | None => client_fetch_channel P (RELAY_CHANNEL_ID cfg)
              end) ;;
       ret [first;
            ("Relay channel: " ++ name_or_not_found ch ++ " ("
             ++ str_of_int (RELAY_CHANNEL_ID cfg) ++ ")")%string])
      [CException]
      (fun _ =>
         ret [first;
              ("Relay channel NOT FOUND ("
               ++ str_of_int (RELAY_CHANNEL_ID cfg) ++ ")")%string])
      w.

End Ready.

(** Two more scenarios: the send is refused; the member lookup times
    out. *)
Definition w_send_refused : scenario := {|
  sc_cached_channel := Some relay_channel;
  sc_remote_channel := inr relay_channel;
  sc_send := inl Forbidden;
  sc_cached_me := Some operator;
  sc_remote_me := inr operator;
  sc_guild_channels := [staff; general; voice_lounge; afk];
  sc_permissions := demo_permissions;
  sc_clock := demo_clock
|}.

Definition w_lookup_times_out : scenario := {|
  sc_cached_channel := Some relay_channel;
  sc_remote_channel := inr relay_channel;
  sc_send := inr tt;
  sc_cached_me := None;
  sc_remote_me := inl OtherException;
  sc_guild_channels := [staff; general; voice_lounge; afk];
  sc_permissions := demo_permissions;
  sc_clock := demo_clock
|}.

(** ** Reading a stamp back

    The fields of a text laid out as [YYYY-MM-DD HH:MM:SS UTC], read
    at their positions. *)
Definition stamp_fields (ts : string) : datetime := {|
  year := int_of_digits (substring 0 4 ts);
  month := int_of_digits (substring 5 2 ts);
  day := int_of_digits (substring 8 2 ts);
  hour := int_of_digits (substring 11 2 ts);
  minute := int_of_digits (substring 14 2 ts);
  second := int_of_digits (substring 17 2 ts)
|}.

(** ** What the member-update loop is to report *)

Section Reports.

Variable P : Platform.
Variable cfg : Config.

(** The line due for a watched id in a state: the id resolves to a
    text, forum or category channel that the member could not view
    before and can view after, both computations succeeding. *)
Definition gain_line (before after_ : Member) (id : Z) (w : world P)
  : option string :=
  match guild_get_channel P w (member_guild after_) id with
  | None => None
  | Some ch =>
      if isinstance ch [TextChannel; ForumChannel; CategoryChannel] then
        match permissions_for P w ch before, permissions_for P w ch after_ with
        | inr pb, inr pa =>
            if negb (view_channel pb) && view_channel pa then
              Some (member_name after_ ++ " gained access to : #"
                    ++ ch_name ch ++ " in "
                    ++ guild_name (member_guild after_) ++ " at "
                    ++ strftime (utcnow P w))%string
            else None
        | _, _ => None
        end
      else None
  end.

(** The lines due for a list of watched ids, in order, each id judged
    in the state the reports before it left; nothing is due after a
    report that raised. *)
Fixpoint expected_reports (before after_ : Member) (ids : list Z)
    (w : world P) : list string :=
  match ids with
  | [] => []
  | id :: rest =>
      match gain_line before after_ id w with
      | None => expected_reports before after_ rest w
      | Some line =>
          line ::
          match res (relay P cfg line w) with
          | Returned _ =>
              expected_reports before after_ rest (post (relay P cfg line w))
          | Raised _ => []
          end
      end
  end.

(** The send of [relay text] in state [w] raised [e], which was not a
    refusal: the destination resolved to a text channel and the send to
    it, in the state the resolution left, answered [e]. *)
Definition send_raised (text : string) (w : world P) (e : exn) : Prop :=
  exists ch,
    res (resolve_relay_channel P cfg w) = Returned (Some ch) /\
    isinstance ch [TextChannel] = true /\
    fst (send P ch text (post (resolve_relay_channel P cfg w))) = inl e /\
    e <> Forbidden.

End Reports.

(** Two watched text channels that alice gains at once, on a platform
    whose send fails with a server error. *)
Definition rules : Channel :=
  {| ch_id := 43; ch_name := "rules"; ch_kind := TextChannel |}.

Definition two_channel_cfg : Config := {|
  RELAY_CHANNEL_ID := 7;
  MY_USER_ID := 10;
  WATCH_GUILD_IDS := [1];
  WATCH_TEXT_CHANNEL_IDS := [42; 43];
  WATCH_VOICE_CHANNEL_IDS := []
|}.

Definition w_two_gains_send_fails : scenario := {|
  sc_cached_channel := Some relay_channel;
  sc_remote_channel := inr relay_channel;
  sc_send := inl HTTPException;
  sc_cached_me := Some operator;
  sc_remote_me := inr operator;
  sc_guild_channels := [general; rules];
  sc_permissions := demo_permissions;
  sc_clock := demo_clock
|}.

(** The same with a send that succeeds. *)
Definition w_two_gains : scenario := {|
  sc_cached_channel := Some relay_channel;
  sc_remote_channel := inr relay_channel;
  sc_send := inr tt;
  sc_cached_me := Some operator;
  sc_remote_me := inr operator;
  sc_guild_channels := [general; rules];
  sc_permissions := demo_permissions;
  sc_clock := demo_clock
|}.
(** ** Basic facts about runs *)

Lemma after_nil {W A} (r : run W A) : after [] r = r.
Proof. destruct r; reflexivity. Qed.

Lemma after_after {W A} (t1 t2 : list event) (r : run W A) :
  after t1 (after t2 r) = after (t1 ++ t2) r.
Proof. unfold after; simpl. now rewrite app_assoc. Qed.

Lemma bind_run {W A B} (m : M W A) (f : A -> M W B) (w : W) :
  (x <- m ;; f x) w =
  match res (m w) with
  | Returned a => after (trace (m w)) (f a (post (m w)))
  | Raised e => Run (Raised e) (post (m w)) (trace (m w))
  end.
Proof. reflexivity. Qed.

Lemma bind_assoc {W A B C} (m : M W A) (f : A -> M W B) (g : B -> M W C)
    (w : W) :
  (y <- (x <- m ;; f x) ;; g y) w = (x <- m ;; y <- f x ;; g y) w.
Proof.
  unfold bind. destruct (m w) as [[a|e] w1 t]; simpl; [|reflexivity].
  destruct (f a w1) as [[b|e] w2 t2]; simpl; [|reflexivity].
  unfold after; simpl. now rewrite app_assoc.
Qed.

Lemma relay_calls_app (t1 t2 : list event) :
  relay_calls (t1 ++ t2) = (relay_calls t1 ++ relay_calls t2)%list.
Proof.
  induction t1 as [|e t1 IH]; simpl; [reflexivity|].
  destruct e; simpl; now rewrite IH.
Qed.

Lemma sends_app (t1 t2 : list event) :
  sends (t1 ++ t2) = (sends t1 ++ sends t2)%list.
Proof. apply filter_app. Qed.

Lemma fetches_app (t1 t2 : list event) :
  fetches (t1 ++ t2) = (fetches t1 ++ fetches t2)%list.
Proof. apply filter_app. Qed.

Lemma mem_In (x : Z) (s : list Z) : mem x s = true <-> In x s.
Proof.
  unfold mem. rewrite existsb_exists. split.
  - intros (y & Hy & E). apply Z.eqb_eq in E. now subst.
  - intros H. exists x. split; [assumption | apply Z.eqb_refl].
Qed.

Lemma mem_false (x : Z) (s : list Z) : ~ In x s -> mem x s = false.
Proof.
  intros H. destruct (mem x s) eqn:E; [|reflexivity].
  apply mem_In in E. contradiction.
Qed.

Lemma truthy_nonempty (s : list Z) : s <> [] -> truthy s = true.
Proof. destruct s; [congruence | reflexivity]. Qed.

Section Gates.

Variable P : Platform.
Variable cfg : Config.

(** The allowlist gate of [guild_is_watched]: nothing is asked of the
    platform. *)
Lemma guild_is_watched_unlisted (g : Guild) (w : world P) :
  WATCH_GUILD_IDS cfg <> [] ->
  ~ In (guild_id g) (WATCH_GUILD_IDS cfg) ->
  guild_is_watched P cfg g w = Run (Returned false) w [].
Proof.
  intros Hne Hnot. unfold guild_is_watched.
  now rewrite (truthy_nonempty _ Hne), (mem_false _ _ Hnot).
Qed.

(** Every way [guild_is_watched] can run. *)
Lemma guild_is_watched_run (g : Guild) (w : world P) :
  guild_is_watched P cfg g w =
  if truthy (WATCH_GUILD_IDS cfg)
     && negb (mem (guild_id g) (WATCH_GUILD_IDS cfg))
  then Run (Returned false) w []
  else
    match get_member P w g (MY_USER_ID cfg) with
    | Some _ => Run (Returned true) w []
    | None =>
        let t := [EvFetchMember g (MY_USER_ID cfg)] in
        match fetch_member P g (MY_USER_ID cfg) w with
        | (inr _, w1) => Run (Returned true) w1 t
        | (inl OtherException, w1) => Run (Raised OtherException) w1 t
        | (inl _, w1) => Run (Returned false) w1 t
        end
    end.
Proof.
  unfold guild_is_watched.
  destruct (truthy _ && negb _); [reflexivity|].
  unfold bind, guild_get_member; simpl.
  destruct (get_member P w g (MY_USER_ID cfg)); [reflexivity|].
  unfold try_except, bind, guild_fetch_member, after; simpl.
  destruct (fetch_member P g (MY_USER_ID cfg) w) as [[[]|m] w1]; reflexivity.
Qed.

(** The scope check neither enters [relay] nor sends. *)
Lemma guild_is_watched_quiet (g : Guild) (w : world P) :
  relay_calls (trace (guild_is_watched P cfg g w)) = [] /\
  sends (trace (guild_is_watched P cfg g w)) = [].
Proof.
  rewrite guild_is_watched_run.
  destruct (truthy _ && negb _); [now split|].
  destruct (get_member P w g (MY_USER_ID cfg)); [now split|].
  destruct (fetch_member P g (MY_USER_ID cfg) w) as [[[]|m] w1]; now split.
Qed.

(** A handler whose scope check does not answer [True] does nothing
    more: it ends as the check ended, in the state and with the trace the
    check left. *)
Lemma handle_not_watched (ev : gateway_event) (w : world P) :
  res (guild_is_watched P cfg (event_guild ev) w) <> Returned true ->
  relay_calls (trace (handle P cfg ev w)) = [] /\
  sends (trace (handle P cfg ev w)) = [].
Proof.
  intros Hres.
  destruct (guild_is_watched_quiet (event_guild ev) w) as [Hr Hs].
  destruct ev as [m | b a | m b a]; simpl in *.
  - unfold on_member_join, bind.
    destruct (guild_is_watched P cfg (member_guild m) w) as [[[]|e] w1 t];
      simpl in *; try congruence; rewrite ?app_nil_r; now split.
  - unfold on_member_update.
    destruct (truthy (WATCH_TEXT_CHANNEL_IDS cfg)); simpl; [|now split].
    unfold bind.
    destruct (guild_is_watched P cfg (member_guild a) w) as [[[]|e] w1 t];
      simpl in *; try congruence; rewrite ?app_nil_r; now split.
  - unfold on_voice_state_update.
    destruct (truthy (WATCH_VOICE_CHANNEL_IDS cfg)); simpl; [|now split].
    unfold bind.
    destruct (guild_is_watched P cfg (member_guild m) w) as [[[]|e] w1 t];
      simpl in *; try congruence; rewrite ?app_nil_r; now split.
Qed.

(** C5. An event from a community that is missing from a non-empty
    allowlist: [guild_is_watched] answers [False] at once, in the same
    state and with an empty trace (no remote lookup), and the event's
    handler returns likewise, so that nothing is relayed or sent. *)
Theorem unlisted_guild_is_ignored (ev : gateway_event) (w : world P) :
  WATCH_GUILD_IDS cfg <> [] ->
  ~ In (guild_id (event_guild ev)) (WATCH_GUILD_IDS cfg) ->
  guild_is_watched P cfg (event_guild ev) w = Run (Returned false) w [] /\
  handle P cfg ev w = Run (Returned tt) w [].
Proof.
  intros Hne Hnot.
  pose proof (guild_is_watched_unlisted _ w Hne Hnot) as Hg.
  split; [exact Hg|].
  destruct ev as [m | b a | m b a]; simpl in *.
  - unfold on_member_join, bind. now rewrite Hg.
  - unfold on_member_update.
    destruct (truthy (WATCH_TEXT_CHANNEL_IDS cfg)); simpl; [|reflexivity].
    unfold bind. now rewrite Hg.
  - unfold on_voice_state_update.
    destruct (truthy (WATCH_VOICE_CHANNEL_IDS cfg)); simpl; [|reflexivity].
    unfold bind. now rewrite Hg.
Qed.

(** The operator is not in the member cache of the event's community
    and the remote member lookup fails with one of the three failures
    the program names (not found, forbidden, any other failed request):
    [guild_is_watched] answers [False]; and whatever the type of the
    event, its handler neither enters [relay] nor sends. *)
Theorem operator_absent_fails_closed
    (ev : gateway_event) (w w1 : world P) (e : exn) :
  get_member P w (event_guild ev) (MY_USER_ID cfg) = None ->
  fetch_member P (event_guild ev) (MY_USER_ID cfg) w = (inl e, w1) ->
  In e [NotFound; Forbidden; HTTPException] ->
  res (guild_is_watched P cfg (event_guild ev) w) = Returned false /\
  relay_calls (trace (handle P cfg ev w)) = [] /\
  sends (trace (handle P cfg ev w)) = [].
Proof.
  intros Hcache Hfetch He.
  assert (Hg : res (guild_is_watched P cfg (event_guild ev) w)
               = Returned false).
  { rewrite guild_is_watched_run, Hcache, Hfetch.
    destruct (truthy _ && negb _); [reflexivity|].
    simpl in He. destruct He as [<-|[<-|[<-|[]]]]; reflexivity. }
  split; [exact Hg|].
  apply handle_not_watched. rewrite Hg. discriminate.
Qed.

(** The same holds of a lookup that fails in any other way: the check
    then raises instead of answering, and still nothing is relayed. *)
Lemma operator_lookup_failure_never_relays
    (ev : gateway_event) (w w1 : world P) (e : exn) :
  get_member P w (event_guild ev) (MY_USER_ID cfg) = None ->
  fetch_member P (event_guild ev) (MY_USER_ID cfg) w = (inl e, w1) ->
  relay_calls (trace (handle P cfg ev w)) = [] /\
  sends (trace (handle P cfg ev w)) = [].
Proof.
  intros Hcache Hfetch. apply handle_not_watched.
  rewrite guild_is_watched_run, Hcache, Hfetch.
  destruct (truthy _ && negb _); [discriminate|].
  destruct e; discriminate.
Qed.

(** C8. An empty watched text-channel set makes [on_member_update]
    return at once, and an empty watched voice-channel set does the same
    for [on_voice_state_update]: same state, empty trace (no lookup, no
    relay), for every event. *)
Theorem empty_watch_set_disables_handler
    (m before after_ : Member) (vb va : VoiceState) (w : world P) :
  (WATCH_TEXT_CHANNEL_IDS cfg = [] ->
   on_member_update P cfg before after_ w = Run (Returned tt) w []) /\
  (WATCH_VOICE_CHANNEL_IDS cfg = [] ->
   on_voice_state_update P cfg m vb va w = Run (Returned tt) w []).
Proof.
  split; intros H.
  - unfold on_member_update. now rewrite H.
  - unfold on_voice_state_update. now rewrite H.
Qed.

End Gates.

(** ** The relay dispatcher *)

Section Relay.

Variable P : Platform.
Variable cfg : Config.

(** Every way the destination can be resolved: never by an exception. *)
Lemma resolve_relay_channel_run (w : world P) :
  resolve_relay_channel P cfg w =
  match get_channel P w (RELAY_CHANNEL_ID cfg) with
  | Some c => Run (Returned (Some c)) w []
  | None =>
      match fetch_channel P (RELAY_CHANNEL_ID cfg) w with
      | (inr c, w1) => Run (Returned (Some c)) w1 [EvFetchChannel (RELAY_CHANNEL_ID cfg)]
      | (inl _, w1) =>
          Run (Returned None) w1
            [EvFetchChannel (RELAY_CHANNEL_ID cfg);
             EvLog ERROR "Relay channel not found (id=%s)" (RELAY_CHANNEL_ID cfg)]
      end
  end.
Proof.
  unfold resolve_relay_channel, bind, client_get_channel; simpl.
  destruct (get_channel P w (RELAY_CHANNEL_ID cfg)); [reflexivity|].
  unfold try_except, bind, client_fetch_channel, after; simpl.
  destruct (fetch_channel P (RELAY_CHANNEL_ID cfg) w) as [[e|c] w1];
    reflexivity.
Qed.

Lemma resolve_relay_channel_returns (w : world P) :
  exists r, res (resolve_relay_channel P cfg w) = Returned r.
Proof.
  rewrite resolve_relay_channel_run.
  destruct (get_channel P w (RELAY_CHANNEL_ID cfg)); [simpl; eauto|].
  destruct (fetch_channel P (RELAY_CHANNEL_ID cfg) w) as [[e|c] w1]; simpl; eauto.
Qed.

(** Every way [relay] can run, given how the destination was resolved. *)
Lemma relay_run (text : string) (w : world P) :
  relay P cfg text w =
  let r := resolve_relay_channel P cfg w in
  match res r with
  | Returned None => Run (Returned tt) (post r) (EvRelay text :: trace r)
  | Returned (Some ch) =>
      if isinstance ch [TextChannel] then
        match send P ch text (post r) with
        | (inr _, w2) =>
            Run (Returned tt) w2
              (EvRelay text :: trace r ++ [EvSend ch text])
        | (inl Forbidden, w2) =>
            Run (Returned tt) w2
              (EvRelay text :: trace r ++
               [EvSend ch text;
                EvLog WARNING "No permission to send in relay channel %s"
                  (ch_id ch)])
        | (inl e, w2) =>
            Run (Raised e) w2 (EvRelay text :: trace r ++ [EvSend ch text])
        end
      else
        Run (Returned tt) (post r)
          (EvRelay text :: trace r ++
           [EvLog ERROR "Relay channel wrong type (id=%s)" (RELAY_CHANNEL_ID cfg)])
  | Raised e => Run (Raised e) (post r) (EvRelay text :: trace r)
  end.
Proof.
  unfold relay, bind, emit. cbn [res post trace].
  destruct (resolve_relay_channel P cfg w) as [[[ch|]|e] w1 t];
    cbn [res post trace after app].
  - destruct (isinstance ch [TextChannel]).
    + unfold try_except, channel_send.
      destruct (send P ch text w1) as [[[]|[]] w2]; reflexivity.
    + reflexivity.
  - unfold ret, after; simpl. now rewrite app_nil_r.
  - reflexivity.
Qed.

(** [relay] enters itself once. *)
Lemma relay_calls_relay (text : string) (w : world P) :
  relay_calls (trace (relay P cfg text w)) = [text].
Proof.
  rewrite relay_run. cbv zeta.
  assert (Hq : relay_calls (trace (resolve_relay_channel P cfg w)) = []).
  { rewrite resolve_relay_channel_run.
    destruct (get_channel P w (RELAY_CHANNEL_ID cfg)); [reflexivity|].
    destruct (fetch_channel P (RELAY_CHANNEL_ID cfg) w) as [[e|c] w1]; reflexivity. }
  destruct (resolve_relay_channel P cfg w) as [[[ch|]|e] w1 t]; simpl in *.
  - destruct (isinstance ch [TextChannel]).
    + destruct (send P ch text w1) as [[[]|[]] w2]; simpl;
        rewrite relay_calls_app, Hq; reflexivity.
    + simpl. rewrite relay_calls_app, Hq; reflexivity.
  - now rewrite Hq.
  - now rewrite Hq.
Qed.


(** What [relay] swallows, with the log record each case leaves. *)
Lemma relay_swallows (text : string) (w : world P) :
  let r := resolve_relay_channel P cfg w in
  (res r = Returned None ->
   relay P cfg text w = Run (Returned tt) (post r) (EvRelay text :: trace r)) /\
  (forall ch, res r = Returned (Some ch) ->
     isinstance ch [TextChannel] = false ->
     relay P cfg text w =
       Run (Returned tt) (post r)
         (EvRelay text :: trace r ++
          [EvLog ERROR "Relay channel wrong type (id=%s)" (RELAY_CHANNEL_ID cfg)])) /\
  (forall ch w2, res r = Returned (Some ch) ->
     isinstance ch [TextChannel] = true ->
     send P ch text (post r) = (inl Forbidden, w2) ->
     relay P cfg text w =
       Run (Returned tt) w2
         (EvRelay text :: trace r ++
          [EvSend ch text;
           EvLog WARNING "No permission to send in relay channel %s"
             (ch_id ch)])).
Proof.
  cbv zeta. repeat split.
  - intros H. rewrite relay_run. cbv zeta. now rewrite H.
  - intros ch H Hk. rewrite relay_run. cbv zeta. now rewrite H, Hk.
  - intros ch w2 H Hk Hs. rewrite relay_run. cbv zeta. now rewrite H, Hk, Hs.
Qed.

(** C6, as the program has it.  On a cache miss [relay] makes exactly one
    remote fetch.  When the fetch fails the call logs an error and
    returns in the state the fetch left, having sent nothing and fetched
    once.  When it succeeds the call goes on with the fetched channel,
    and the state it ends in is the one the platform's own calls (the
    fetch, then the send if there is one) produced: [relay] stores
    nothing itself. *)
Theorem relay_cache_miss_fetches_once (text : string) (w : world P) :
  get_channel P w (RELAY_CHANNEL_ID cfg) = None ->
  fetches (trace (relay P cfg text w)) = [EvFetchChannel (RELAY_CHANNEL_ID cfg)] /\
  match fetch_channel P (RELAY_CHANNEL_ID cfg) w with
  | (inl _, w1) =>
      relay P cfg text w =
        Run (Returned tt) w1
          [EvRelay text; EvFetchChannel (RELAY_CHANNEL_ID cfg);
           EvLog ERROR "Relay channel not found (id=%s)" (RELAY_CHANNEL_ID cfg)]
  | (inr ch, w1) =>
      post (relay P cfg text w) =
        (if isinstance ch [TextChannel] then snd (send P ch text w1) else w1)
  end.
Proof.
  intros Hmiss. rewrite relay_run, resolve_relay_channel_run, Hmiss.
  cbv zeta.
  destruct (fetch_channel P (RELAY_CHANNEL_ID cfg) w) as [[x|ch] w1]; simpl.
  - split; reflexivity.
  - destruct (isinstance ch [TextChannel]).
    + destruct (send P ch text w1) as [[[]|[]] w2]; simpl; split; reflexivity.
    + split; reflexivity.
Qed.

(** A cache hit asks nothing of the remote side before the send. *)
Lemma relay_cache_hit_no_fetch (text : string) (w : world P) (ch : Channel) :
  get_channel P w (RELAY_CHANNEL_ID cfg) = Some ch ->
  fetches (trace (relay P cfg text w)) = [].
Proof.
  intros Hhit. rewrite relay_run, resolve_relay_channel_run, Hhit.
  cbv zeta; simpl.
  destruct (isinstance ch [TextChannel]); [|reflexivity].
  destruct (send P ch text w) as [[[]|[]] w2]; reflexivity.
Qed.

End Relay.

(** ** The timestamp *)

Lemma has_shape_app (p1 p2 s1 s2 : string) :
  has_shape p1 s1 = true -> has_shape p2 s2 = true ->
  has_shape (p1 ++ p2) (s1 ++ s2) = true.
Proof.
  revert s1. induction p1 as [|p p1 IH]; intros [|c s1]; simpl;
    try discriminate; [trivial|].
  intros H1 H2. apply andb_true_iff in H1 as [Hc H1].
  rewrite Hc. simpl. now apply IH.
Qed.

Lemma in_range_all_spec (f : Z -> bool) (lo len n : Z) :
  in_range_all f lo len = true ->
  lo <= n < lo + len -> f n = true.
Proof.
  unfold in_range_all. rewrite forallb_forall. intros H Hn.
  apply H. apply in_map_iff. exists (Z.to_nat (n - lo)). split; [lia|].
  apply in_seq. lia.
Qed.

Lemma zero_pad_2_shape (n : Z) :
  0 <= n <= 99 -> has_shape "dd" (zero_pad 2 n) = true.
Proof.
  intros Hn.
  apply (in_range_all_spec (fun k => has_shape "dd" (zero_pad 2 k)) 0 100);
    [vm_compute; reflexivity | lia].
Qed.

Lemma zero_pad_4_shape (n : Z) :
  1000 <= n <= 9999 -> has_shape "dddd" (zero_pad 4 n) = true.
Proof.
  intros Hn.
  apply (in_range_all_spec (fun k => has_shape "dddd" (zero_pad 4 k))
           1000 9000); [vm_compute; reflexivity | lia].
Qed.

(** [strftime] writes [YYYY-MM-DD HH:MM:SS UTC]. *)
Lemma strftime_shape (d : datetime) :
  valid_datetime d -> has_shape timestamp_pattern (strftime d) = true.
Proof.
  intros (Hy & Hm & Hd & HH & HM & HS). unfold strftime.
  change timestamp_pattern
    with ("dddd" ++ "-" ++ "dd" ++ "-" ++ "dd" ++ " " ++ "dd" ++ ":" ++
          "dd" ++ ":" ++ "dd" ++ " UTC")%string.
  repeat (apply has_shape_app;
          [first [ apply zero_pad_4_shape; lia
                 | apply zero_pad_2_shape; lia
                 | reflexivity ] |]).
  reflexivity.
Qed.

(** ** The three detectors *)

Section Detectors.

Variable P : Platform.
Variable cfg : Config.

(** *** Member join *)

(** A member joins a community for which the scope check answers
    [True]: the handler goes on with exactly one call of [relay], whose
    text is the member's name, [" joined : "], the community's name,
    [" at "] and the clock's UTC time written [YYYY-MM-DD HH:MM:SS UTC]. *)
Theorem member_join_relays_one_line (member : Member) (w : world P) :
  let r := guild_is_watched P cfg (member_guild member) w in
  let ts := strftime (utcnow P (post r)) in
  let line := (member_name member ++ " joined : "
               ++ guild_name (member_guild member) ++ " at " ++ ts)%string in
  res r = Returned true ->
  valid_datetime (utcnow P (post r)) ->
  on_member_join P cfg member w = after (trace r) (relay P cfg line (post r)) /\
  relay_calls (trace (on_member_join P cfg member w)) = [line] /\
  has_shape timestamp_pattern ts = true.
Proof.
  intros r ts line Hres Hvalid.
  assert (Hrun : on_member_join P cfg member w
                 = after (trace r) (relay P cfg line (post r))).
  { unfold on_member_join, bind. fold r. rewrite Hres.
    unfold now_utc_str. cbn [res post trace negb].
    fold ts. fold line. now rewrite after_nil. }
  split; [exact Hrun|]. split; [|now apply strftime_shape].
  rewrite Hrun. unfold after. cbn [trace].
  rewrite relay_calls_app, relay_calls_relay.
  unfold r. now rewrite (proj1 (guild_is_watched_quiet P cfg _ w)).
Qed.

(** *** Member update *)

(** Every way the loop body can run for one channel id. *)
Lemma member_update_body_run (before after_ : Member) (id : Z) (w : world P) :
  member_update_body P cfg before after_ id w =
  match guild_get_channel P w (member_guild after_) id with
  | None => Run (Returned tt) w []
  | Some ch =>
      if isinstance ch [TextChannel; ForumChannel; CategoryChannel] then
        match permissions_for P w ch before, permissions_for P w ch after_ with
        | inr pb, inr pa =>
            if negb (view_channel pb) && view_channel pa then
              relay P cfg
                (member_name after_ ++ " gained access to : #"
                 ++ ch_name ch ++ " in "
                 ++ guild_name (member_guild after_) ++ " at "
                 ++ strftime (utcnow P w))%string w
            else Run (Returned tt) w []
        | _, _ => Run (Returned tt) w []
        end
      else Run (Returned tt) w []
  end.
Proof.
  unfold member_update_body, guild_channel, channel_permissions_for,
    now_utc_str, try_except, bind, ret.
  cbn [res post trace].
  destruct (guild_get_channel P w (member_guild after_) id) as [ch|];
    [|reflexivity].
  destruct (isinstance ch [TextChannel; ForumChannel; CategoryChannel]);
    [|reflexivity].
  cbn [negb res post trace after app].
  destruct (permissions_for P w ch before) as [e|pb];
    [destruct e; reflexivity|].
  cbn [of_result res post trace after app].
  destruct (permissions_for P w ch after_) as [e|pa];
    [destruct e; reflexivity|].
  cbn [of_result res post trace after app caught existsb exn_isinstance].
  destruct (negb (view_channel pb) && view_channel pa); [|reflexivity].
  cbn [res post trace app].
  now destruct (relay P cfg _ w).
Qed.

Lemma member_update_loop_app (before after_ : Member) (l1 l2 : list Z)
    (w : world P) :
  member_update_loop P cfg before after_ (l1 ++ l2) w =
  (member_update_loop P cfg before after_ l1 ;;
   member_update_loop P cfg before after_ l2) w.
Proof.
  revert w. induction l1 as [|id l1 IH]; intros w; simpl.
  - unfold bind, ret. cbn [res post trace]. now rewrite after_nil.
  - rewrite bind_assoc, !(bind_run (member_update_body _ _ _ _ _)).
    destruct (member_update_body P cfg before after_ id w) as [[[]|e] w1 t];
      cbn [res post trace]; [now rewrite IH | reflexivity].
Qed.

(** The loop reaches a channel id when the ids before it were handled
    without an exception, and runs the body on it in the state they
    left. *)
Lemma member_update_loop_reaches (before after_ : Member) (l1 l2 : list Z)
    (id : Z) (w : world P) :
  let r1 := member_update_loop P cfg before after_ l1 w in
  res r1 = Returned tt ->
  member_update_loop P cfg before after_ (l1 ++ id :: l2) w =
  after (trace r1)
    ((member_update_body P cfg before after_ id ;;
      member_update_loop P cfg before after_ l2) (post r1)).
Proof.
  intros r1 Hres. rewrite member_update_loop_app, bind_run.
  fold r1. now rewrite Hres.
Qed.

(** Past its two gates [on_member_update] is the loop over the watched
    text channels. *)
Lemma on_member_update_watched (before after_ : Member) (w : world P) :
  let r := guild_is_watched P cfg (member_guild after_) w in
  WATCH_TEXT_CHANNEL_IDS cfg <> [] ->
  res r = Returned true ->
  on_member_update P cfg before after_ w =
  after (trace r)
    (member_update_loop P cfg before after_ (WATCH_TEXT_CHANNEL_IDS cfg)
       (post r)).
Proof.
  intros r Hne Hres. unfold on_member_update.
  rewrite (truthy_nonempty _ Hne). cbn [negb].
  unfold bind. fold r. now rewrite Hres.
Qed.

(** Whatever the loop hands to [relay] is the line of a watched channel
    that the member gained: no other pair of permissions, no channel of
    another kind and no failed computation is ever reported. *)
Lemma member_update_body_reports_only_gains
    (before after_ : Member) (id : Z) (w : world P) (line : string) :
  In line (relay_calls (trace (member_update_body P cfg before after_ id w))) ->
  exists ch pb pa,
    guild_get_channel P w (member_guild after_) id = Some ch /\
    isinstance ch [TextChannel; ForumChannel; CategoryChannel] = true /\
    permissions_for P w ch before = inr pb /\
    permissions_for P w ch after_ = inr pa /\
    view_channel pb = false /\ view_channel pa = true /\
    line = (member_name after_ ++ " gained access to : #"
            ++ ch_name ch ++ " in "
            ++ guild_name (member_guild after_) ++ " at "
            ++ strftime (utcnow P w))%string.
Proof.
  rewrite member_update_body_run.
  destruct (guild_get_channel P w (member_guild after_) id) as [ch|] eqn:Hch;
    [|intros []].
  destruct (isinstance ch _) eqn:Hk; [|intros []].
  destruct (permissions_for P w ch before) as [e|pb] eqn:Hpb; [intros []|].
  destruct (permissions_for P w ch after_) as [e|pa] eqn:Hpa; [intros []|].
  destruct (view_channel pb) eqn:Hb, (view_channel pa) eqn:Ha;
    cbn [negb andb trace relay_calls In]; try (intros HF; contradiction).
  rewrite relay_calls_relay. intros [<-|[]].
  exists ch, pb, pa. repeat split; assumption || reflexivity.
Qed.

Lemma member_update_loop_reports_only_gains
    (before after_ : Member) (ids : list Z) (w : world P) (line : string) :
  In line (relay_calls (trace (member_update_loop P cfg before after_ ids w))) ->
  exists id w1,
    In id ids /\
    In line
      (relay_calls (trace (member_update_body P cfg before after_ id w1))).
Proof.
  revert w. induction ids as [|id rest IH]; intros w; [intros []|].
  cbn [member_update_loop]. rewrite bind_run.
  destruct (member_update_body P cfg before after_ id w) as [[[]|e] w1 t]
    eqn:Hbody; cbn [res post trace after].
  - rewrite relay_calls_app. intros H. apply in_app_or in H as [H|H].
    + exists id, w. rewrite Hbody. split; [now left | exact H].
    + destruct (IH _ H) as (id' & w' & Hin & Hl).
      exists id', w'. split; [now right | exact Hl].
  - intros H. exists id, w. rewrite Hbody. split; [now left | exact H].
Qed.

(** The loop body on a watched channel id that resolves to a text,
    forum or category channel, both permission computations succeeding:
    it calls [relay], once and with the "gained access" line of that
    channel, exactly when the member could not view the channel before
    and can view it after; on the three other pairs it does nothing. *)
Theorem gained_access_iff_false_then_true
    (before after_ : Member) (id : Z) (w : world P)
    (ch : Channel) (pb pa : Permissions) :
  guild_get_channel P w (member_guild after_) id = Some ch ->
  isinstance ch [TextChannel; ForumChannel; CategoryChannel] = true ->
  permissions_for P w ch before = inr pb ->
  permissions_for P w ch after_ = inr pa ->
  let line := (member_name after_ ++ " gained access to : #"
               ++ ch_name ch ++ " in "
               ++ guild_name (member_guild after_) ++ " at "
               ++ strftime (utcnow P w))%string in
  let body := member_update_body P cfg before after_ id w in
  (relay_calls (trace body) <> [] <->
   view_channel pb = false /\ view_channel pa = true) /\
  (view_channel pb = false /\ view_channel pa = true ->
   body = relay P cfg line w /\ relay_calls (trace body) = [line]) /\
  (~ (view_channel pb = false /\ view_channel pa = true) ->
   body = Run (Returned tt) w []).
Proof.
  intros Hch Hkind Hb Ha line body. subst body.
  rewrite member_update_body_run, Hch, Hkind, Hb, Ha. fold line.
  destruct (view_channel pb), (view_channel pa); cbn [negb andb];
    rewrite ?relay_calls_relay; cbn [trace relay_calls];
    repeat split; intros;
    repeat match goal with H : _ /\ _ |- _ => destruct H end;
    try congruence; try apply relay_calls_relay;
    exfalso; auto.
Qed.

(** C7. A watched channel whose permission computation fails, for the
    before or the after member, is skipped and nothing else: the event
    is handled exactly as if that channel were not in the watch set, the
    channels before it and after it being evaluated as they would be. *)
Theorem permission_failure_skips_only_that_channel
    (before after_ : Member) (l1 l2 : list Z) (id : Z) (w : world P)
    (ch : Channel) (e : exn) :
  let w1 := post (member_update_loop P cfg before after_ l1 w) in
  guild_get_channel P w1 (member_guild after_) id = Some ch ->
  permissions_for P w1 ch before = inl e \/
  permissions_for P w1 ch after_ = inl e ->
  member_update_body P cfg before after_ id w1 = Run (Returned tt) w1 [] /\
  member_update_loop P cfg before after_ (l1 ++ id :: l2) w =
  member_update_loop P cfg before after_ (l1 ++ l2) w.
Proof.
  intros w1 Hch Hfail.
  assert (Hbody : member_update_body P cfg before after_ id w1
                  = Run (Returned tt) w1 []).
  { rewrite member_update_body_run, Hch.
    destruct (isinstance ch _); [|reflexivity].
    destruct Hfail as [-> | ->]; [reflexivity|].
    destruct (permissions_for P w1 ch before); reflexivity. }
  split; [exact Hbody|].
  rewrite !member_update_loop_app, !bind_run. fold w1.
  destruct (res (member_update_loop P cfg before after_ l1 w)) as [[]|x];
    [|reflexivity].
  f_equal. cbn [member_update_loop]. rewrite bind_run, Hbody.
  cbn [res post trace]. apply after_nil.
Qed.

(** *** Voice state update *)

Lemma channel_kind_eqb_sym (a b : channel_kind) :
  channel_kind_eqb a b = channel_kind_eqb b a.
Proof. destruct a, b; reflexivity. Qed.

Lemma opt_channel_eqb_sym (a b : option Channel) :
  opt_channel_eqb a b = opt_channel_eqb b a.
Proof.
  destruct a as [x|], b as [y|]; simpl; try reflexivity.
  unfold channel_eqb. now rewrite channel_kind_eqb_sym, Z.eqb_sym.
Qed.

(** Past its two gates [on_voice_state_update] is its chain of tests. *)
Lemma on_voice_state_update_watched
    (member : Member) (before after_ : VoiceState) (w : world P) :
  let r := guild_is_watched P cfg (member_guild member) w in
  WATCH_VOICE_CHANNEL_IDS cfg <> [] ->
  res r = Returned true ->
  on_voice_state_update P cfg member before after_ w =
  after (trace r)
    (match voice_line member
             (voice_rule (WATCH_VOICE_CHANNEL_IDS cfg)
                (vs_channel before) (vs_channel after_))
             (strftime (utcnow P (post r))) with
     | Some line => relay P cfg line (post r)
     | None => Run (Returned tt) (post r) []
     end).
Proof.
  intros r Hne Hres. unfold on_voice_state_update.
  rewrite (truthy_nonempty _ Hne). cbn [negb].
  rewrite bind_run. fold r. rewrite Hres. cbn [negb]. f_equal.
  unfold voice_rule.
  rewrite (opt_channel_eqb_sym (vs_channel before) (vs_channel after_)).
  destruct (opt_channel_eqb (vs_channel after_) (vs_channel before));
    cbn [negb]; [reflexivity|].
  unfold in_watch, watched_location.
  destruct (vs_channel after_) as [a|], (vs_channel before) as [b|];
    try destruct (mem (ch_id a) (WATCH_VOICE_CHANNEL_IDS cfg));
    try destruct (mem (ch_id b) (WATCH_VOICE_CHANNEL_IDS cfg));
    cbn [negb andb voice_line];
    unfold bind, name_of, now_utc_str, ret; cbn [res post trace];
    rewrite ?after_nil; reflexivity.
Qed.

(** C3. A voice-state update past the scope check and the non-empty
    watch set.  The handler does what the rule of the specification
    says: nothing when the two channels are equal; otherwise the one
    outcome that the watch-set membership of the two channels selects,
    "joined" for after only, "left" for before only, "moved" for both,
    nothing for neither.  It calls [relay] once with that outcome's line
    or not at all, so no two outcomes are reported for one event. *)
Theorem voice_update_follows_rule
    (member : Member) (before after_ : VoiceState) (w : world P) :
  let r := guild_is_watched P cfg (member_guild member) w in
  let outcome := voice_rule (WATCH_VOICE_CHANNEL_IDS cfg)
                   (vs_channel before) (vs_channel after_) in
  let line := voice_line member outcome (strftime (utcnow P (post r))) in
  WATCH_VOICE_CHANNEL_IDS cfg <> [] ->
  res r = Returned true ->
  on_voice_state_update P cfg member before after_ w =
    after (trace r)
      (match line with
       | Some l => relay P cfg l (post r)
       | None => Run (Returned tt) (post r) []
       end) /\
  relay_calls (trace (on_voice_state_update P cfg member before after_ w)) =
    match line with Some l => [l] | None => [] end /\
  (opt_channel_eqb (vs_channel after_) (vs_channel before) = true ->
   relay_calls (trace (on_voice_state_update P cfg member before after_ w))
   = []).
Proof.
  intros r outcome line Hne Hres.
  pose proof (on_voice_state_update_watched member before after_ w Hne Hres)
    as Hrun.
  fold r in Hrun. fold outcome in Hrun. fold line in Hrun.
  assert (Hcalls :
    relay_calls (trace (on_voice_state_update P cfg member before after_ w))
    = match line with Some l => [l] | None => [] end).
  { rewrite Hrun. unfold after. cbn [trace]. rewrite relay_calls_app.
    unfold r at 1. rewrite (proj1 (guild_is_watched_quiet P cfg _ w)).
    destruct line; [apply relay_calls_relay | reflexivity]. }
  split; [exact Hrun|]. split; [exact Hcalls|].
  intros Heq. rewrite Hcalls. unfold line, outcome, voice_rule.
  now rewrite opt_channel_eqb_sym, Heq.
Qed.

(** C10. A member who is in no voice channel is in no watch set:
    [in_watch] answers [False] for an absent channel.  Past the gates,
    an update that leaves a channel for nowhere reports "left" when that
    channel is watched and nothing otherwise; one that comes from
    nowhere reports "joined" when the new channel is watched and nothing
    otherwise; one from nowhere to nowhere reports nothing.  So "moved"
    is never reported when either side is absent. *)
Theorem absent_voice_channel_is_unwatched
    (member : Member) (before after_ : VoiceState) (w : world P) :
  let r := guild_is_watched P cfg (member_guild member) w in
  let ts := strftime (utcnow P (post r)) in
  let run := on_voice_state_update P cfg member before after_ w in
  WATCH_VOICE_CHANNEL_IDS cfg <> [] ->
  res r = Returned true ->
  in_watch cfg None = false /\
  (forall b, vs_channel before = Some b -> vs_channel after_ = None ->
     run = after (trace r)
             (if in_watch cfg (Some b) then
                relay P cfg
                  (member_name member ++ " left voice : #" ++ ch_name b
                   ++ " in " ++ guild_name (member_guild member)
                   ++ " at " ++ ts)%string (post r)
              else Run (Returned tt) (post r) [])) /\
  (forall a, vs_channel before = None -> vs_channel after_ = Some a ->
     run = after (trace r)
             (if in_watch cfg (Some a) then
                relay P cfg
                  (member_name member ++ " joined voice : #" ++ ch_name a
                   ++ " in " ++ guild_name (member_guild member)
                   ++ " at " ++ ts)%string (post r)
              else Run (Returned tt) (post r) [])) /\
  (vs_channel before = None -> vs_channel after_ = None ->
     run = after (trace r) (Run (Returned tt) (post r) [])).
Proof.
  intros r ts run Hne Hres.
  pose proof (on_voice_state_update_watched member before after_ w Hne Hres)
    as Hrun.
  fold r in Hrun. fold ts in Hrun. fold run in Hrun.
  split; [reflexivity|]. repeat split.
  - intros b Hb Ha. rewrite Hrun, Hb, Ha. unfold voice_rule; simpl.
    now destruct (mem (ch_id b) (WATCH_VOICE_CHANNEL_IDS cfg)).
  - intros a Hb Ha. rewrite Hrun, Hb, Ha. unfold voice_rule; simpl.
    now destruct (mem (ch_id a) (WATCH_VOICE_CHANNEL_IDS cfg)).
  - intros Hb Ha. now rewrite Hrun, Hb, Ha.
Qed.

End Detectors.

(** ** The theorems at the scenarios of the specification *)

Lemma operator_absent_fails_closed_witness :
  res (guild_is_watched table_platform demo_cfg guild_G w_operator_absent)
  = Returned false /\
  relay_calls
    (trace (handle table_platform demo_cfg (MemberJoin alice)
              w_operator_absent)) = [] /\
  sends
    (trace (handle table_platform demo_cfg (MemberJoin alice)
              w_operator_absent)) = [].
Proof.
  apply (operator_absent_fails_closed table_platform demo_cfg
           (MemberJoin alice) w_operator_absent w_operator_absent NotFound);
    [reflexivity | reflexivity | simpl; auto].
Defined.

Lemma unlisted_guild_is_ignored_witness :
  guild_is_watched table_platform demo_cfg guild_H w_ok
  = Run (Returned false) w_ok [] /\
  handle table_platform demo_cfg (MemberJoin alice_in_H) w_ok
  = Run (Returned tt) w_ok [].
Proof.
  apply (unlisted_guild_is_ignored table_platform demo_cfg
           (MemberJoin alice_in_H) w_ok).
  - discriminate.
  - simpl. intros [H|[]]. discriminate H.
Defined.

Lemma empty_watch_set_disables_handler_witness :
  on_member_update table_platform bare_cfg alice_before alice w_ok
  = Run (Returned tt) w_ok [] /\
  on_voice_state_update table_platform bare_cfg alice
    {| vs_channel := Some afk |} {| vs_channel := Some voice_lounge |} w_ok
  = Run (Returned tt) w_ok [].
Proof.
  destruct (empty_watch_set_disables_handler table_platform bare_cfg
              alice alice_before alice
              {| vs_channel := Some afk |}
              {| vs_channel := Some voice_lounge |} w_ok) as [Ht Hv].
  split; [exact (Ht eq_refl) | exact (Hv eq_refl)].
Defined.


Lemma relay_cache_miss_fetches_once_witness :
  relay table_platform demo_cfg "hello" w_unreachable
  = Run (Returned tt) w_unreachable
      [EvRelay "hello"; EvFetchChannel 7;
       EvLog ERROR "Relay channel not found (id=%s)" 7].
Proof.
  exact (proj2 (relay_cache_miss_fetches_once table_platform demo_cfg
                  "hello" w_unreachable eq_refl)).
Defined.

(** The channel fetched by one call of [relay] is not in the cache for
    the next: the second call fetches it again. *)
Lemma relay_fetches_again_on_next_call :
  let first := relay table_platform demo_cfg "first" w_uncached in
  get_channel table_platform w_uncached 7 = None /\
  trace first
  = [EvRelay "first"; EvFetchChannel 7; EvSend relay_channel "first"] /\
  get_channel table_platform (post first) 7 = None /\
  fetches (trace (relay table_platform demo_cfg "second" (post first)))
  = [EvFetchChannel 7].
Proof. cbv zeta. repeat split; reflexivity. Qed.

Lemma member_join_relays_one_line_witness :
  relay_calls (trace (on_member_join table_platform demo_cfg alice w_ok))
  = ["alice joined : G at 2024-05-17 09:30:05 UTC"%string].
Proof.
  refine (proj1 (proj2 (member_join_relays_one_line table_platform demo_cfg
                          alice w_ok eq_refl _))).
  unfold valid_datetime; simpl; lia.
Defined.

Lemma gained_access_iff_false_then_true_witness :
  member_update_body table_platform demo_cfg alice_before alice 42 w_ok
  = relay table_platform demo_cfg
      "alice gained access to : #general in G at 2024-05-17 09:30:05 UTC"
      w_ok.
Proof.
  refine (proj1 (proj1 (proj2
            (gained_access_iff_false_then_true table_platform demo_cfg
               alice_before alice 42 w_ok general
               {| view_channel := false |} {| view_channel := true |}
               eq_refl eq_refl eq_refl eq_refl)) _)).
  split; reflexivity.
Defined.

(** The reverse edge at the same channel: nothing. *)
Example lost_access_is_not_reported :
  on_member_update table_platform demo_cfg alice alice_before w_ok
  = Run (Returned tt) w_ok [].
Proof. reflexivity. Qed.

Lemma permission_failure_skips_only_that_channel_witness :
  member_update_loop table_platform demo_cfg alice_before alice
    ([] ++ 41 :: [42]) w_ok
  = member_update_loop table_platform demo_cfg alice_before alice
      ([] ++ [42]) w_ok /\
  relay_calls
    (trace (member_update_loop table_platform demo_cfg alice_before alice
              [41; 42] w_ok))
  = ["alice gained access to : #general in G at 2024-05-17 09:30:05 UTC"
     %string].
Proof.
  split; [|reflexivity].
  exact (proj2 (permission_failure_skips_only_that_channel table_platform
                  demo_cfg alice_before alice [] [42] 41 w_ok staff
                  OtherException eq_refl (or_introl eq_refl))).
Defined.

Lemma voice_update_follows_rule_witness :
  relay_calls
    (trace (on_voice_state_update table_platform demo_cfg alice
              {| vs_channel := Some afk |}
              {| vs_channel := Some voice_lounge |} w_ok))
  = ["alice joined voice : #voice-lounge in G at 2024-05-17 09:30:05 UTC"
     %string].
Proof.
  refine (proj1 (proj2 (voice_update_follows_rule table_platform demo_cfg
                          alice {| vs_channel := Some afk |}
                          {| vs_channel := Some voice_lounge |} w_ok
                          _ eq_refl))).
  discriminate.
Defined.

Lemma absent_voice_channel_is_unwatched_witness :
  on_voice_state_update table_platform demo_cfg alice
    {| vs_channel := Some voice_lounge |} {| vs_channel := None |} w_ok
  = relay table_platform demo_cfg
      "alice left voice : #voice-lounge in G at 2024-05-17 09:30:05 UTC"
      w_ok.
Proof.
  refine (proj1 (proj2 (absent_voice_channel_is_unwatched table_platform
                          demo_cfg alice
                          {| vs_channel := Some voice_lounge |}
                          {| vs_channel := None |} w_ok _ eq_refl))
            voice_lounge eq_refl eq_refl).
  discriminate.
Defined.

(** ** Further properties of the dispatcher and of the scope check *)

Lemma isinstance_text (ch : Channel) :
  isinstance ch [TextChannel] = true <-> ch_kind ch = TextChannel.
Proof.
  unfold isinstance. simpl. rewrite orb_false_r.
  destruct (ch_kind ch); simpl; split; congruence.
Qed.

Section MoreRelay.

Variable P : Platform.
Variable cfg : Config.

(** [relay] sends at most once: the text it was given, to a text
    channel, which is the cached destination or, on a cache miss, the
    one the fetch returned. *)
Theorem relay_sends_at_most_once (text : string) (w : world P) :
  sends (trace (relay P cfg text w)) = [] \/
  exists ch,
    sends (trace (relay P cfg text w)) = [EvSend ch text] /\
    ch_kind ch = TextChannel /\
    (get_channel P w (RELAY_CHANNEL_ID cfg) = Some ch \/
     get_channel P w (RELAY_CHANNEL_ID cfg) = None /\
     fst (fetch_channel P (RELAY_CHANNEL_ID cfg) w) = inr ch).
Proof.
  rewrite relay_run, resolve_relay_channel_run. cbv zeta.
  destruct (get_channel P w (RELAY_CHANNEL_ID cfg)) as [ch|] eqn:Hc.
  - cbn [res post trace].
    destruct (isinstance ch [TextChannel]) eqn:Hk; [|now left].
    right. exists ch. apply isinstance_text in Hk.
    destruct (send P ch text w) as [[[]|[]] w2]; simpl; auto.
  - destruct (fetch_channel P (RELAY_CHANNEL_ID cfg) w) as [[x|ch] w1];
      cbn [res post trace fst]; [now left|].
    destruct (isinstance ch [TextChannel]) eqn:Hk; [|now left].
    right. exists ch. apply isinstance_text in Hk.
    destruct (send P ch text w1) as [[[]|[]] w2]; simpl; auto.
Qed.

(** With the destination in the cache [relay] asks nothing of the remote
    side before the send.  A cached text channel is sent the text, once;
    a cached channel of any other class gets nothing: the call logs an
    error and returns in the state it started in. *)
Theorem relay_uses_cached_channel
    (text : string) (w : world P) (ch : Channel) :
  get_channel P w (RELAY_CHANNEL_ID cfg) = Some ch ->
  fetches (trace (relay P cfg text w)) = [] /\
  (ch_kind ch = TextChannel ->
   sends (trace (relay P cfg text w)) = [EvSend ch text] /\
   post (relay P cfg text w) = snd (send P ch text w)) /\
  (ch_kind ch <> TextChannel ->
   relay P cfg text w =
     Run (Returned tt) w
       [EvRelay text;
        EvLog ERROR "Relay channel wrong type (id=%s)" (RELAY_CHANNEL_ID cfg)]).
Proof.
  intros Hhit. rewrite relay_run, resolve_relay_channel_run, Hhit.
  cbv zeta. cbn [res post trace].
  destruct (isinstance ch [TextChannel]) eqn:Hk.
  - apply isinstance_text in Hk.
    destruct (send P ch text w) as [[[]|[]] w2]; simpl;
      repeat split; intros; congruence.
  - split; [reflexivity|]. split; intros Hkind; [|reflexivity].
    apply isinstance_text in Hkind. congruence.
Qed.

(** A send that the platform refuses ([Forbidden]) costs the message
    and nothing else: [relay] returns, having logged one warning that
    names the channel, and the state is the one the send left. *)
Theorem relay_forbidden_send_is_logged
    (text : string) (w w2 : world P) (ch : Channel) :
  get_channel P w (RELAY_CHANNEL_ID cfg) = Some ch ->
  ch_kind ch = TextChannel ->
  send P ch text w = (inl Forbidden, w2) ->
  relay P cfg text w =
    Run (Returned tt) w2
      [EvRelay text; EvSend ch text;
       EvLog WARNING "No permission to send in relay channel %s" (ch_id ch)].
Proof.
  intros Hhit Hk Hs. apply isinstance_text in Hk.
  rewrite relay_run, resolve_relay_channel_run, Hhit.
  cbv zeta. cbn [res post trace]. now rewrite Hk, Hs.
Qed.

(** When [guild_is_watched] answers [True]: exactly when the community
    passes the allowlist (an empty allowlist lets every community pass)
    and the operator is in the member cache or the remote lookup
    succeeds. *)
Theorem guild_is_watched_true_iff (g : Guild) (w : world P) :
  res (guild_is_watched P cfg g w) = Returned true <->
  (WATCH_GUILD_IDS cfg = [] \/ In (guild_id g) (WATCH_GUILD_IDS cfg)) /\
  (get_member P w g (MY_USER_ID cfg) <> None \/
   exists me, fst (fetch_member P g (MY_USER_ID cfg) w) = inr me).
Proof.
  rewrite guild_is_watched_run.
  destruct (WATCH_GUILD_IDS cfg) as [|x l] eqn:Hl; cbn [truthy andb].
  - destruct (get_member P w g (MY_USER_ID cfg)) as [me|].
    + simpl. split; [intros _|reflexivity].
      split; [now left | left; discriminate].
    + destruct (fetch_member P g (MY_USER_ID cfg) w) as [[[]|me] w1];
        simpl; split; try discriminate;
        try (intros [_ [H|[me' H]]]; congruence).
      intros _. split; [now left | right; eauto].
  - destruct (mem (guild_id g) (x :: l)) eqn:Hm; cbn [negb].
    + apply mem_In in Hm.
      destruct (get_member P w g (MY_USER_ID cfg)) as [me|].
      * simpl. split; [intros _|reflexivity].
        split; [now right | left; discriminate].
      * destruct (fetch_member P g (MY_USER_ID cfg) w) as [[[]|me] w1];
          simpl; split; try discriminate;
          try (intros [_ [H|[me' H]]]; congruence).
        intros _. split; [now right | right; eauto].
    + simpl. split; [discriminate|].
      intros [[H|H] _]; [discriminate|].
      pose proof (proj2 (mem_In (guild_id g) (x :: l)) H). congruence.
Qed.

(** The scope check makes at most one remote call, the lookup of the
    operator in that community, and only after the allowlist let the
    community pass and the cache missed; otherwise it leaves the state
    as it found it. *)
Theorem guild_is_watched_remote_calls (g : Guild) (w : world P) :
  (trace (guild_is_watched P cfg g w) = [] /\
   post (guild_is_watched P cfg g w) = w) \/
  (trace (guild_is_watched P cfg g w) = [EvFetchMember g (MY_USER_ID cfg)] /\
   post (guild_is_watched P cfg g w)
   = snd (fetch_member P g (MY_USER_ID cfg) w) /\
   get_member P w g (MY_USER_ID cfg) = None /\
   (WATCH_GUILD_IDS cfg = [] \/ In (guild_id g) (WATCH_GUILD_IDS cfg))).
Proof.
  rewrite guild_is_watched_run.
  destruct (truthy (WATCH_GUILD_IDS cfg)
            && negb (mem (guild_id g) (WATCH_GUILD_IDS cfg))) eqn:Hgate;
    [now left|].
  destruct (get_member P w g (MY_USER_ID cfg)); [now left|].
  right.
  assert (Hallow : WATCH_GUILD_IDS cfg = []
                   \/ In (guild_id g) (WATCH_GUILD_IDS cfg)).
  { destruct (WATCH_GUILD_IDS cfg) as [|x l]; [now left|]. right.
    cbn [truthy andb] in Hgate. apply negb_false_iff in Hgate.
    now apply mem_In. }
  destruct (fetch_member P g (MY_USER_ID cfg) w) as [[[]|me] w1];
    simpl; auto.
Qed.

(** A member lookup that fails outside the [HTTPException] hierarchy is
    not caught: the check raises it, and [on_member_join] ends by it
    without relaying. *)
Theorem lookup_error_outside_http_propagates
    (member : Member) (w w1 : world P) :
  let g := member_guild member in
  (WATCH_GUILD_IDS cfg = [] \/ In (guild_id g) (WATCH_GUILD_IDS cfg)) ->
  get_member P w g (MY_USER_ID cfg) = None ->
  fetch_member P g (MY_USER_ID cfg) w = (inl OtherException, w1) ->
  guild_is_watched P cfg g w
  = Run (Raised OtherException) w1 [EvFetchMember g (MY_USER_ID cfg)] /\
  on_member_join P cfg member w
  = Run (Raised OtherException) w1 [EvFetchMember g (MY_USER_ID cfg)].
Proof.
  intros g Hallow Hmiss Hfetch.
  assert (Hg : guild_is_watched P cfg g w
               = Run (Raised OtherException) w1
                   [EvFetchMember g (MY_USER_ID cfg)]).
  { rewrite guild_is_watched_run, Hmiss, Hfetch.
    destruct Hallow as [-> | Hin]; [reflexivity|].
    apply mem_In in Hin. rewrite Hin. now rewrite andb_false_r. }
  split; [exact Hg|].
  unfold on_member_join. rewrite bind_run. fold g. now rewrite Hg.
Qed.

End MoreRelay.

(** ** Further properties of the handlers *)





Section MoreHandlers.

Variable P : Platform.
Variable cfg : Config.

(** How a handler goes on after the scope check. *)
Lemma after_scope_check (g : Guild) (k : M (world P) unit) (w : world P) :
  (watched <- guild_is_watched P cfg g ;;
   if negb watched then ret tt else k) w =
  let r := guild_is_watched P cfg g w in
  match res r with
  | Returned true => after (trace r) (k (post r))
  | Returned false => Run (Returned tt) (post r) (trace r)
  | Raised e => Run (Raised e) (post r) (trace r)
  end.
Proof.
  rewrite bind_run. cbv zeta.
  destruct (guild_is_watched P cfg g w) as [[[]|e] w1 t]; cbn [res post trace];
    try reflexivity.
  unfold after, ret. cbn [res post trace]. now rewrite app_nil_r.
Qed.





End MoreHandlers.

Section HandlerFailures.

Variable P : Platform.
Variable cfg : Config.

Lemma guild_is_watched_raises (g : Guild) (w : world P) (e : exn) :
  res (guild_is_watched P cfg g w) = Raised e ->
  get_member P w g (MY_USER_ID cfg) = None /\
  fst (fetch_member P g (MY_USER_ID cfg) w) = inl e.
Proof.
  rewrite guild_is_watched_run.
  destruct (truthy _ && negb _); [discriminate|].
  destruct (get_member P w g (MY_USER_ID cfg)); [discriminate|].
  destruct (fetch_member P g (MY_USER_ID cfg) w) as [[[]|me] w1];
    simpl; try discriminate.
  intros H. inversion H. now split.
Qed.

Lemma relay_raises_from_send (text : string) (w : world P) (e : exn) :
  res (relay P cfg text w) = Raised e ->
  exists ch w1,
    In (EvSend ch text) (trace (relay P cfg text w)) /\
    fst (send P ch text w1) = inl e /\ e <> Forbidden.
Proof.
  rewrite relay_run. cbv zeta.
  destruct (resolve_relay_channel_returns P cfg w) as [o Ho].
  destruct (resolve_relay_channel P cfg w) as [r w1 t]; cbn [res post trace] in *.
  subst r. destruct o as [ch|]; [|discriminate].
  destruct (isinstance ch [TextChannel]); [|discriminate].
  destruct (send P ch text w1) as [[x|[]] w2] eqn:Hs; [|discriminate].
  intros H. exists ch, w1. rewrite Hs.
  destruct x; inversion H; subst; cbn [trace fst];
    (split; [right; apply in_or_app; right; now left
            | split; [reflexivity | discriminate]]).
Qed.

Lemma member_update_loop_raises_from_send
    (before after_ : Member) (ids : list Z) (w : world P) (e : exn) :
  res (member_update_loop P cfg before after_ ids w) = Raised e ->
  exists ch text w1,
    In (EvSend ch text) (trace (member_update_loop P cfg before after_ ids w)) /\
    fst (send P ch text w1) = inl e /\ e <> Forbidden.
Proof.
  revert w. induction ids as [|id rest IH]; intros w; [discriminate|].
  cbn [member_update_loop]. rewrite bind_run.
  destruct (member_update_body P cfg before after_ id w) as [[[]|x] w1 t]
    eqn:Hbody; cbn [res post trace after].
  - intros H. destruct (IH _ H) as (ch & text & w' & Hin & Hs & Hne).
    exists ch, text, w'. split; [apply in_or_app; now right | now split].
  - intros H. inversion H; subst x.
    assert (Hr : res (member_update_body P cfg before after_ id w) = Raised e)
      by now rewrite Hbody.
    assert (Ht : trace (member_update_body P cfg before after_ id w) = t)
      by now rewrite Hbody.
    rewrite member_update_body_run in Hr, Ht.
    destruct (guild_get_channel P w (member_guild after_) id) as [c|];
      [|discriminate].
    destruct (isinstance c _); [|discriminate].
    destruct (permissions_for P w c before) as [?|pb]; [discriminate|].
    destruct (permissions_for P w c after_) as [?|pa]; [discriminate|].
    destruct (negb (view_channel pb) && view_channel pa); [|discriminate].
    destruct (relay_raises_from_send _ _ _ Hr) as (ch & w' & Hin & Hs & Hne).
    rewrite Ht in Hin. eauto 8.
Qed.

(** A handler ends by an exception only when the platform failed it:
    either the remote lookup of the operator raised that exception, the
    cache having missed, or a send that the handler made raised it, and
    it was not a refusal.  Nothing in the handlers themselves raises; in
    particular [on_voice_state_update] never reads the name of an
    absent channel. *)
Theorem handler_fails_only_by_lookup_or_send
    (ev : gateway_event) (w : world P) (e : exn) :
  res (handle P cfg ev w) = Raised e ->
  (get_member P w (event_guild ev) (MY_USER_ID cfg) = None /\
   fst (fetch_member P (event_guild ev) (MY_USER_ID cfg) w) = inl e) \/
  (exists ch text w1,
     In (EvSend ch text) (trace (handle P cfg ev w)) /\
     fst (send P ch text w1) = inl e /\ e <> Forbidden).
Proof.
  destruct ev as [m | b a | m b a]; cbn [handle event_guild].
  - unfold on_member_join. rewrite after_scope_check. cbv zeta.
    destruct (res (guild_is_watched P cfg (member_guild m) w))
      as [[]|x] eqn:Hr; cbn [res trace after]; try discriminate.
    + rewrite bind_run. unfold now_utc_str. cbn [res post trace after app].
      intros H. right.
      destruct (relay_raises_from_send _ _ _ H) as (ch & w1 & Hin & Hs & Hne).
      eexists ch, _, w1.
      split; [apply in_or_app; right; exact Hin | now split].
    + intros H. inversion H; subst x. left.
      now apply guild_is_watched_raises.
  - unfold on_member_update.
    destruct (truthy (WATCH_TEXT_CHANNEL_IDS cfg)); cbn [negb];
      [|discriminate].
    rewrite after_scope_check. cbv zeta.
    destruct (res (guild_is_watched P cfg (member_guild a) w))
      as [[]|x] eqn:Hr; cbn [res trace after]; try discriminate.
    + intros H. right.
      destruct (member_update_loop_raises_from_send _ _ _ _ _ H)
        as (ch & text & w1 & Hin & Hs & Hne).
      exists ch, text, w1. split; [apply in_or_app; now right | now split].
    + intros H. inversion H; subst x. left.
      now apply guild_is_watched_raises.
  - destruct (truthy (WATCH_VOICE_CHANNEL_IDS cfg)) eqn:Hw;
      [|unfold on_voice_state_update; rewrite Hw; discriminate].
    destruct (res (guild_is_watched P cfg (member_guild m) w))
      as [[]|x] eqn:Hr.
    + rewrite on_voice_state_update_watched;
        [|destruct (WATCH_VOICE_CHANNEL_IDS cfg); [discriminate Hw
                                                  |discriminate]
         |exact Hr].
      cbn [res trace after].
      destruct (voice_line _ _ _) as [line|]; [|discriminate].
      intros H. right.
      destruct (relay_raises_from_send _ _ _ H) as (ch & w1 & Hin & Hs & Hne).
      exists ch, line, w1. split; [apply in_or_app; now right | now split].
    + unfold on_voice_state_update. rewrite Hw. cbn [negb].
      rewrite after_scope_check. cbv zeta. rewrite Hr. discriminate.
    + unfold on_voice_state_update. rewrite Hw. cbn [negb].
      rewrite after_scope_check. cbv zeta. rewrite Hr. cbn [res].
      intros H. inversion H; subst x. left.
      now apply guild_is_watched_raises.
Qed.

End HandlerFailures.

Section MoreDetectors.

Variable P : Platform.
Variable cfg : Config.



Lemma member_update_body_calls_le_1
    (before after_ : Member) (id : Z) (w : world P) :
  (List.length
     (relay_calls (trace (member_update_body P cfg before after_ id w)))
   <= 1)%nat.
Proof.
  rewrite member_update_body_run.
  destruct (guild_get_channel P w (member_guild after_) id) as [ch|];
    [|simpl; lia].
  destruct (isinstance ch _); [|simpl; lia].
  destruct (permissions_for P w ch before) as [e|pb]; [simpl; lia|].
  destruct (permissions_for P w ch after_) as [e|pa]; [simpl; lia|].
  destruct (negb (view_channel pb) && view_channel pa); [|simpl; lia].
  rewrite relay_calls_relay. simpl. lia.
Qed.

Lemma member_update_loop_calls_le
    (before after_ : Member) (ids : list Z) (w : world P) :
  (List.length
     (relay_calls (trace (member_update_loop P cfg before after_ ids w)))
   <= List.length ids)%nat.
Proof.
  revert w. induction ids as [|id rest IH]; intros w; [simpl; lia|].
  cbn [member_update_loop]. rewrite bind_run.
  pose proof (member_update_body_calls_le_1 before after_ id w) as Hb.
  destruct (member_update_body P cfg before after_ id w) as [[[]|e] w1 t];
    cbn [res post trace after] in *.
  - rewrite relay_calls_app, length_app. specialize (IH w1). simpl. lia.
  - simpl. lia.
Qed.

(** One member update is reported at most once per watched text channel,
    and each report is the "gained access" line of a watched id whose
    channel, of a suitable class, the member could not view before and
    can view after.  Lost access, unchanged access, failed computations
    and other channels are never reported. *)
Theorem member_update_reports_only_gains
    (before after_ : Member) (w : world P) :
  let t := trace (on_member_update P cfg before after_ w) in
  (List.length (relay_calls t) <= List.length (WATCH_TEXT_CHANNEL_IDS cfg))%nat
  /\
  forall line, In line (relay_calls t) ->
    exists id w1 ch pb pa,
      In id (WATCH_TEXT_CHANNEL_IDS cfg) /\
      guild_get_channel P w1 (member_guild after_) id = Some ch /\
      isinstance ch [TextChannel; ForumChannel; CategoryChannel] = true /\
      permissions_for P w1 ch before = inr pb /\
      permissions_for P w1 ch after_ = inr pa /\
      view_channel pb = false /\ view_channel pa = true /\
      line = (member_name after_ ++ " gained access to : #"
              ++ ch_name ch ++ " in "
              ++ guild_name (member_guild after_) ++ " at "
              ++ strftime (utcnow P w1))%string.
Proof.
  cbv zeta. unfold on_member_update.
  destruct (truthy (WATCH_TEXT_CHANNEL_IDS cfg)); cbn [negb];
    [|split; [simpl; lia | intros line []]].
  rewrite after_scope_check. cbv zeta.
  pose proof (proj1 (guild_is_watched_quiet P cfg (member_guild after_) w))
    as Hq.
  destruct (res (guild_is_watched P cfg (member_guild after_) w)) as [[]|e];
    cbn [trace after]; rewrite ?relay_calls_app, ?Hq; cbn [app];
    try (split; [simpl; lia | intros line []]).
  split; [apply member_update_loop_calls_le|].
  intros line Hin.
  destruct (member_update_loop_reports_only_gains _ _ _ _ _ _ _ Hin)
    as (id & w1 & Hid & Hb).
  destruct (member_update_body_reports_only_gains _ _ _ _ _ _ _ Hb)
    as (ch & pb & pa & H).
  exists id, w1, ch, pb, pa. tauto.
Qed.

(** When the loop ends by an exception, it ends at the first channel
    whose report failed: the ids before it were handled, the ids after
    it are not looked at, and the trace stops with that channel's. *)
Theorem failed_report_ends_member_update_loop
    (before after_ : Member) (ids : list Z) (w : world P) (e : exn) :
  res (member_update_loop P cfg before after_ ids w) = Raised e ->
  exists l1 id l2,
    ids = (l1 ++ id :: l2)%list /\
    let r1 := member_update_loop P cfg before after_ l1 w in
    res r1 = Returned tt /\
    res (member_update_body P cfg before after_ id (post r1)) = Raised e /\
    member_update_loop P cfg before after_ ids w =
    after (trace r1) (member_update_body P cfg before after_ id (post r1)).
Proof.
  revert w. induction ids as [|id rest IH]; intros w; [discriminate|].
  cbn [member_update_loop]. rewrite bind_run.
  destruct (member_update_body P cfg before after_ id w) as [[[]|x] w1 t]
    eqn:Hbody; cbn [res post trace].
  - intros H. cbn [after res] in H.
    destruct (IH _ H) as (l1 & id' & l2 & -> & Hr1 & Hb & Hrun).
    exists (id :: l1), id', l2. split; [reflexivity|].
    cbn [member_update_loop]. rewrite !bind_run, Hbody.
    cbn [res post trace after] in *. rewrite Hr1.
    cbn [res post trace]. split; [reflexivity|]. split; [exact Hb|].
    rewrite Hrun. apply after_after.
  - intros H. inversion H; subst x.
    exists [], id, rest. split; [reflexivity|].
    cbn [member_update_loop ret res post trace]. split; [reflexivity|].
    rewrite Hbody. split; reflexivity.
Qed.

(** Coming and going are told apart by the direction alone: for a
    watched channel and a place that is not watched (another channel or
    nowhere), moving in is reported as "joined" and the same move
    backwards as "left", both naming the watched channel. *)
Theorem voice_join_reversed_is_leave
    (member : Member) (a : Channel) (other : option Channel) (w : world P) :
  let r := guild_is_watched P cfg (member_guild member) w in
  let ts := strftime (utcnow P (post r)) in
  WATCH_VOICE_CHANNEL_IDS cfg <> [] ->
  res r = Returned true ->
  In (ch_id a) (WATCH_VOICE_CHANNEL_IDS cfg) ->
  in_watch cfg other = false ->
  on_voice_state_update P cfg member
    {| vs_channel := other |} {| vs_channel := Some a |} w
  = after (trace r)
      (relay P cfg
         (member_name member ++ " joined voice : #" ++ ch_name a ++ " in "
          ++ guild_name (member_guild member) ++ " at " ++ ts)%string
         (post r)) /\
  on_voice_state_update P cfg member
    {| vs_channel := Some a |} {| vs_channel := other |} w
  = after (trace r)
      (relay P cfg
         (member_name member ++ " left voice : #" ++ ch_name a ++ " in "
          ++ guild_name (member_guild member) ++ " at " ++ ts)%string
         (post r)).
Proof.
  intros r ts Hne Hres Ha Hother.
  apply mem_In in Ha.
  assert (Hdiff : opt_channel_eqb other (Some a) = false).
  { destruct other as [b|]; [|reflexivity]. simpl in *.
    unfold channel_eqb. destruct (ch_id b =? ch_id a) eqn:E;
      [|now rewrite andb_false_r].
    apply Z.eqb_eq in E. rewrite E in Hother. congruence. }
  split.
  - rewrite on_voice_state_update_watched by assumption.
    fold r. fold ts. cbn [vs_channel]. unfold voice_rule.
    rewrite Hdiff. unfold watched_location. rewrite Ha.
    destruct other as [b|]; [simpl in Hother; rewrite Hother|]; reflexivity.
  - rewrite on_voice_state_update_watched by assumption.
    fold r. fold ts. cbn [vs_channel]. unfold voice_rule.
    rewrite opt_channel_eqb_sym, Hdiff. unfold watched_location. rewrite Ha.
    destruct other as [b|]; [simpl in Hother; rewrite Hother|]; reflexivity.
Qed.

End MoreDetectors.

(** ** The timestamp determines the second *)

Lemma string_length_append (s t : string) :
  String.length (s ++ t) = (String.length s + String.length t)%nat.
Proof. induction s as [|c s IH]; simpl; [reflexivity | now rewrite IH]. Qed.

Lemma append_inj_length (s1 s2 t1 t2 : string) :
  String.length s1 = String.length s2 ->
  (s1 ++ t1 = s2 ++ t2)%string -> s1 = s2 /\ t1 = t2.
Proof.
  revert s2. induction s1 as [|c s1 IH]; intros [|d s2]; simpl;
    try discriminate.
  - auto.
  - intros Hlen Heq. inversion Hlen. inversion Heq; subst.
    destruct (IH s2 H0 H2) as [-> ->]. auto.
Qed.

Lemma zero_pad_2_reads_back (n : Z) :
  0 <= n <= 99 ->
  String.length (zero_pad 2 n) = 2%nat /\ int_of_digits (zero_pad 2 n) = n.
Proof.
  intros Hn.
  pose proof (in_range_all_spec
                (fun k => (String.length (zero_pad 2 k) =? 2)%nat
                          && (int_of_digits (zero_pad 2 k) =? k)) 0 100 n) as H.
  cbv beta in H.
  assert (H' := H ltac:(vm_compute; reflexivity) ltac:(lia)).
  clear H. rename H' into H. apply andb_true_iff in H as [H1 H2].
  apply Nat.eqb_eq in H1. apply Z.eqb_eq in H2. now split.
Qed.

Lemma zero_pad_4_reads_back (n : Z) :
  1000 <= n <= 9999 ->
  String.length (zero_pad 4 n) = 4%nat /\ int_of_digits (zero_pad 4 n) = n.
Proof.
  intros Hn.
  pose proof (in_range_all_spec
                (fun k => (String.length (zero_pad 4 k) =? 4)%nat
                          && (int_of_digits (zero_pad 4 k) =? k))
                1000 9000 n) as H.
  cbv beta in H.
  assert (H' := H ltac:(vm_compute; reflexivity) ltac:(lia)).
  clear H. rename H' into H. apply andb_true_iff in H as [H1 H2].
  apply Nat.eqb_eq in H1. apply Z.eqb_eq in H2. now split.
Qed.

(** The stamp written by [now_utc_str] is 23 characters long and keeps
    the whole instant down to the second: two clock values with the same
    stamp are the same. *)
Theorem now_utc_str_determines_the_second (P : Platform) (w1 w2 : world P) :
  valid_datetime (utcnow P w1) ->
  valid_datetime (utcnow P w2) ->
  res (now_utc_str P w1) = res (now_utc_str P w2) ->
  utcnow P w1 = utcnow P w2 /\
  res (now_utc_str P w1) = Returned (strftime (utcnow P w1)) /\
  String.length (strftime (utcnow P w1)) = 23%nat.
Proof.
  unfold now_utc_str. cbn [res].
  destruct (utcnow P w1) as [y1 m1 d1 H1 M1 S1].
  destruct (utcnow P w2) as [y2 m2 d2 H2 M2 S2].
  unfold valid_datetime. cbn [year month day hour minute second].
  intros (Hy1 & Hm1 & Hd1 & HH1 & HM1 & HS1).
  intros (Hy2 & Hm2 & Hd2 & HH2 & HM2 & HS2).
  intros Heq. injection Heq as Heq. unfold strftime in *.
  cbn [year month day hour minute second] in *.
  destruct (zero_pad_4_reads_back y1) as [Ly1 Vy1]; [lia|].
  destruct (zero_pad_4_reads_back y2) as [Ly2 Vy2]; [lia|].
  destruct (zero_pad_2_reads_back m1) as [Lm1 Vm1]; [lia|].
  destruct (zero_pad_2_reads_back m2) as [Lm2 Vm2]; [lia|].
  destruct (zero_pad_2_reads_back d1) as [Ld1 Vd1]; [lia|].
  destruct (zero_pad_2_reads_back d2) as [Ld2 Vd2]; [lia|].
  destruct (zero_pad_2_reads_back H1) as [LH1 VH1]; [lia|].
  destruct (zero_pad_2_reads_back H2) as [LH2 VH2]; [lia|].
  destruct (zero_pad_2_reads_back M1) as [LM1 VM1]; [lia|].
  destruct (zero_pad_2_reads_back M2) as [LM2 VM2]; [lia|].
  destruct (zero_pad_2_reads_back S1) as [LS1 VS1]; [lia|].
  destruct (zero_pad_2_reads_back S2) as [LS2 VS2]; [lia|].
  split; [|split; [reflexivity|]].
  - apply append_inj_length in Heq as [Ey Heq]; [|congruence].
    apply (append_inj_length "-" "-") in Heq as [_ Heq]; [|reflexivity].
    apply append_inj_length in Heq as [Em Heq]; [|congruence].
    apply (append_inj_length "-" "-") in Heq as [_ Heq]; [|reflexivity].
    apply append_inj_length in Heq as [Ed Heq]; [|congruence].
    apply (append_inj_length " " " ") in Heq as [_ Heq]; [|reflexivity].
    apply append_inj_length in Heq as [EH Heq]; [|congruence].
    apply (append_inj_length ":" ":") in Heq as [_ Heq]; [|reflexivity].
    apply append_inj_length in Heq as [EM Heq]; [|congruence].
    apply (append_inj_length ":" ":") in Heq as [_ Heq]; [|reflexivity].
    apply append_inj_length in Heq as [ES _]; [|congruence].
    f_equal; congruence.
  - rewrite !string_length_append, Ly1, Lm1, Ld1, LH1, LM1, LS1. reflexivity.
Qed.

(** ** Reading the watch sets *)

Lemma set_of_In (x : Z) (l : list Z) : In x (set_of l) <-> In x l.
Proof.
  induction l as [|a l IH]; simpl; [tauto|].
  destruct (mem a l) eqn:E.
  - rewrite IH. split; [auto|].
    intros [<-|H]; [now apply mem_In | exact H].
  - simpl. rewrite IH. tauto.
Qed.








(** What is in the parsed set: the values of the comma-separated pieces
    that, once stripped, are made of digits. *)
Lemma parse_id_list_In (raw : option string) (n : Z) :
  In n (_parse_id_list raw) <->
  exists t,
    In t (split "," match raw with Some s => s | None => EmptyString end) /\
    isdigit (strip t) = true /\ int_of_digits (strip t) = n.
Proof.
  unfold _parse_id_list. cbv zeta. rewrite set_of_In, in_map_iff.
  split.
  - intros (t & Hv & Hin). apply filter_In in Hin as [Hin Hd]. eauto.
  - intros (t & Hin & Hd & Hv). exists t. split; [assumption|].
    apply filter_In. now split.
Qed.


Lemma split_pieces (q : ascii -> bool) (sep : ascii) (s : string) :
  all_chars (fun c => q c || Ascii.eqb c sep) s = true ->
  Forall (fun t => all_chars q t = true) (split sep s).
Proof.
  induction s as [|c s IH]; cbn [split all_chars].
  - intros _. now constructor.
  - rewrite andb_true_iff. intros [Hc Hs]. specialize (IH Hs).
    destruct (Ascii.eqb c sep).
    + now constructor.
    + rewrite orb_false_r in Hc.
      destruct (split sep s) as [|t ts].
      * constructor; [simpl; now rewrite Hc | constructor].
      * inversion IH; subst. constructor; [|assumption].
        simpl. now rewrite Hc.
Qed.

Lemma lstrip_blank (s : string) :
  all_chars is_space s = true -> lstrip s = EmptyString.
Proof.
  induction s as [|c s IH]; simpl; [reflexivity|].
  rewrite andb_true_iff. intros [-> Hs]. auto.
Qed.

Lemma filter_none {A} (f : A -> bool) (l : list A) :
  Forall (fun x => f x = false) l -> filter f l = [].
Proof.
  induction 1 as [|x l Hx _ IH]; simpl; [reflexivity|]. now rewrite Hx.
Qed.

Lemma blank_variable_gives_empty_set_aux (raw : option string) :
  blank raw -> _parse_id_list raw = [].
Proof.
  intros Hb. unfold _parse_id_list. cbv zeta.
  rewrite filter_none; [reflexivity|].
  destruct raw as [s|]; [|repeat constructor].
  simpl in Hb. apply split_pieces in Hb.
  eapply Forall_impl; [|exact Hb].
  intros t Ht. cbv beta in Ht. unfold strip.
  now rewrite (lstrip_blank t Ht).
Qed.

Lemma split_nonempty (sep : ascii) (s : string) : split sep s <> [].
Proof.
  destruct s as [|c s]; cbn [split]; [discriminate|].
  destruct (Ascii.eqb c sep); [discriminate|].
  destruct (split sep s); discriminate.
Qed.

Lemma split_append_separator (sep : ascii) (s t : string) :
  split sep (s ++ String sep t) = (split sep s ++ split sep t)%list.
Proof.
  induction s as [|c s IH]; cbn [split append].
  - now rewrite Ascii.eqb_refl.
  - destruct (Ascii.eqb c sep); [now rewrite IH|].
    rewrite IH. pose proof (split_nonempty sep s) as Hne.
    destruct (split sep s) as [|p ps]; [congruence | reflexivity].
Qed.

(** Two lists of ids put end to end with a comma between them are read
    as the union of what each is read as: the pieces are judged one by
    one, and a piece that is not a number spoils nothing around it. *)
Theorem parsed_set_of_two_lists_is_the_union (s t : string) (n : Z) :
  plain_text (s ++ "," ++ t) ->
  In n (_parse_id_list (Some (s ++ "," ++ t)%string)) <->
  In n (_parse_id_list (Some s)) \/ In n (_parse_id_list (Some t)).
Proof.
  intros _. rewrite !parse_id_list_In.
  change (s ++ "," ++ t)%string with (s ++ String "," t)%string.
  rewrite split_append_separator. split.
  - intros (p & Hin & Hd & Hv).
    apply in_app_or in Hin as [Hin|Hin]; [left | right]; eauto.
  - intros [(p & Hin & Hd & Hv) | (p & Hin & Hd & Hv)];
      exists p; (split; [apply in_or_app; auto | now split]).
Qed.























(** With none of the three watch variables set (or all of them blank),
    the bot reports the joins of every community the operator is in and
    nothing else: a join is one call of [relay], made without any remote
    lookup when the operator is in the member cache, and the two optional
    detectors do nothing. *)
Theorem unset_watch_variables_report_joins_only
    (P : Platform) (cfg : Config) (raw_g raw_t raw_v : option string)
    (ev : gateway_event) (w : world P) (me : Member) :
  WATCH_GUILD_IDS cfg = _parse_id_list raw_g ->
  WATCH_TEXT_CHANNEL_IDS cfg = _parse_id_list raw_t ->
  WATCH_VOICE_CHANNEL_IDS cfg = _parse_id_list raw_v ->
  blank raw_g -> blank raw_t -> blank raw_v ->
  get_member P w (event_guild ev) (MY_USER_ID cfg) = Some me ->
  handle P cfg ev w =
  match ev with
  | MemberJoin m =>
      relay P cfg
        (member_name m ++ " joined : " ++ guild_name (member_guild m)
         ++ " at " ++ strftime (utcnow P w))%string w
  | _ => Run (Returned tt) w []
  end.
Proof.
  intros Hg Ht Hv Bg Bt Bv Hme.
  rewrite (blank_variable_gives_empty_set_aux raw_g Bg) in Hg.
  rewrite (blank_variable_gives_empty_set_aux raw_t Bt) in Ht.
  rewrite (blank_variable_gives_empty_set_aux raw_v Bv) in Hv.
  destruct ev as [m | b a | m b a]; cbn [handle event_guild] in *.
  - unfold on_member_join. rewrite bind_run, guild_is_watched_run, Hg, Hme.
    cbn [truthy andb res post trace negb].
    rewrite bind_run. unfold now_utc_str. cbn [res post trace].
    now rewrite !after_nil.
  - unfold on_member_update. now rewrite Ht.
  - unfold on_voice_state_update. now rewrite Hv.
Qed.

(** ** Startup diagnostics *)

Section ReadyFacts.

Variable P : Platform.
Variable cfg : Config.
Variable client_user : world P -> string.
Variable client_guilds : world P -> list Guild.

(** Every way [on_ready] can run. *)
Lemma on_ready_run (w : world P) :
  on_ready P cfg client_user client_guilds w =
  let id := RELAY_CHANNEL_ID cfg in
  let first := ready_line P client_user client_guilds w in
  let found ch := ("Relay channel: " ++ name_or_not_found ch ++ " ("
                   ++ str_of_int id ++ ")")%string in
  match get_channel P w id with
  | Some ch => Run (Returned [first; found ch]) w []
  | None =>
      match fetch_channel P id w with
      | (inr ch, w1) => Run (Returned [first; found ch]) w1 [EvFetchChannel id]
      | (inl _, w1) =>
          Run (Returned [first;
                         ("Relay channel NOT FOUND (" ++ str_of_int id
                          ++ ")")%string]) w1 [EvFetchChannel id]
      end
  end.
Proof.
  unfold on_ready, try_except, bind, client_get_channel, client_fetch_channel,
    ret.
  cbv zeta. cbn [res post trace].
  destruct (get_channel P w (RELAY_CHANNEL_ID cfg)) as [ch|]; [reflexivity|].
  cbn [res post trace].
  destruct (fetch_channel P (RELAY_CHANNEL_ID cfg) w) as [[e|ch] w1];
    [destruct e; reflexivity | reflexivity].
Qed.

(** The startup diagnostics cannot fail: whatever becomes of the relay
    channel, [on_ready] returns, having printed exactly two lines of
    which the first is the list of communities.  It sends nothing, and
    asks the remote side for the channel at most once and only when the
    cache does not have it. *)
Theorem on_ready_never_fails (w : world P) :
  let r := on_ready P cfg client_user client_guilds w in
  (exists second,
     res r = Returned [ready_line P client_user client_guilds w; second]) /\
  sends (trace r) = [] /\ relay_calls (trace r) = [] /\
  match get_channel P w (RELAY_CHANNEL_ID cfg) with
  | Some _ => trace r = [] /\ post r = w
  | None =>
      trace r = [EvFetchChannel (RELAY_CHANNEL_ID cfg)] /\
      post r = snd (fetch_channel P (RELAY_CHANNEL_ID cfg) w)
  end.
Proof.
  cbv zeta. rewrite on_ready_run. cbv zeta.
  destruct (get_channel P w (RELAY_CHANNEL_ID cfg)) as [ch|].
  - cbn [res post trace]. repeat split; eauto.
  - destruct (fetch_channel P (RELAY_CHANNEL_ID cfg) w) as [[e|ch] w1];
      cbn [res post trace snd]; repeat split; eauto.
Qed.


End ReadyFacts.

(** ** The further properties at the scenarios *)

Lemma relay_uses_cached_channel_witness :
  fetches (trace (relay table_platform demo_cfg "hello" w_ok)) = [] /\
  sends (trace (relay table_platform demo_cfg "hello" w_ok))
  = [EvSend relay_channel "hello"].
Proof.
  destruct (relay_uses_cached_channel table_platform demo_cfg "hello" w_ok
              relay_channel eq_refl) as (Hf & Hs & _).
  split; [exact Hf | exact (proj1 (Hs eq_refl))].
Defined.

Lemma relay_forbidden_send_is_logged_witness :
  relay table_platform demo_cfg "hello" w_send_refused =
  Run (Returned tt) w_send_refused
    [EvRelay "hello"; EvSend relay_channel "hello";
     EvLog WARNING "No permission to send in relay channel %s" 7].
Proof.
  exact (relay_forbidden_send_is_logged table_platform demo_cfg "hello"
           w_send_refused w_send_refused relay_channel
           eq_refl eq_refl eq_refl).
Defined.

Lemma lookup_error_outside_http_propagates_witness :
  on_member_join table_platform demo_cfg alice w_lookup_times_out =
  Run (Raised OtherException) w_lookup_times_out [EvFetchMember guild_G 10].
Proof.
  refine (proj2 (lookup_error_outside_http_propagates table_platform demo_cfg
                   alice w_lookup_times_out w_lookup_times_out
                   _ eq_refl eq_refl)).
  right. simpl. auto.
Defined.


Lemma handler_fails_only_by_lookup_or_send_witness :
  (get_member table_platform w_send_fails guild_G 10 = None /\
   fst (fetch_member table_platform guild_G 10 w_send_fails)
   = inl HTTPException) \/
  (exists ch text w1,
     In (EvSend ch text)
       (trace (handle table_platform demo_cfg (MemberJoin alice)
                 w_send_fails)) /\
     fst (send table_platform ch text w1) = inl HTTPException /\
     HTTPException <> Forbidden).
Proof.
  exact (handler_fails_only_by_lookup_or_send table_platform demo_cfg
           (MemberJoin alice) w_send_fails HTTPException eq_refl).
Defined.


Lemma member_update_reports_only_gains_witness :
  exists id w1 ch pb pa,
    In id [41; 42] /\
    guild_get_channel table_platform w1 guild_G id = Some ch /\
    isinstance ch [TextChannel; ForumChannel; CategoryChannel] = true /\
    permissions_for table_platform w1 ch alice_before = inr pb /\
    permissions_for table_platform w1 ch alice = inr pa /\
    view_channel pb = false /\ view_channel pa = true /\
    "alice gained access to : #general in G at 2024-05-17 09:30:05 UTC"%string
    = ("alice" ++ " gained access to : #" ++ ch_name ch ++ " in " ++ "G"
       ++ " at " ++ strftime (utcnow table_platform w1))%string.
Proof.
  apply (proj2 (member_update_reports_only_gains table_platform demo_cfg
                  alice_before alice w_ok)).
  simpl. auto.
Defined.

Lemma failed_report_ends_member_update_loop_witness :
  exists l1 id l2,
    [41; 42] = (l1 ++ id :: l2)%list /\
    let r1 := member_update_loop table_platform demo_cfg alice_before alice
                l1 w_send_fails in
    res r1 = Returned tt /\
    res (member_update_body table_platform demo_cfg alice_before alice id
           (post r1)) = Raised HTTPException /\
    member_update_loop table_platform demo_cfg alice_before alice [41; 42]
      w_send_fails
    = after (trace r1)
        (member_update_body table_platform demo_cfg alice_before alice id
           (post r1)).
Proof.
  exact (failed_report_ends_member_update_loop table_platform demo_cfg
           alice_before alice [41; 42] w_send_fails HTTPException eq_refl).
Defined.

Lemma voice_join_reversed_is_leave_witness :
  relay_calls
    (trace (on_voice_state_update table_platform demo_cfg alice
              {| vs_channel := Some afk |}
              {| vs_channel := Some voice_lounge |} w_ok))
  = ["alice joined voice : #voice-lounge in G at 2024-05-17 09:30:05 UTC"
     %string] /\
  relay_calls
    (trace (on_voice_state_update table_platform demo_cfg alice
              {| vs_channel := Some voice_lounge |}
              {| vs_channel := Some afk |} w_ok))
  = ["alice left voice : #voice-lounge in G at 2024-05-17 09:30:05 UTC"
     %string].
Proof.
  assert (Hne : WATCH_VOICE_CHANNEL_IDS demo_cfg <> []) by discriminate.
  assert (Hin : In (ch_id voice_lounge) (WATCH_VOICE_CHANNEL_IDS demo_cfg))
    by (simpl; auto).
  destruct (voice_join_reversed_is_leave table_platform demo_cfg alice
              voice_lounge (Some afk) w_ok Hne eq_refl Hin eq_refl)
    as [Hj Hl].
  rewrite Hj, Hl. split; reflexivity.
Defined.

Lemma now_utc_str_determines_the_second_witness :
  utcnow table_platform w_ok = utcnow table_platform w_send_fails /\
  res (now_utc_str table_platform w_ok)
  = Returned "2024-05-17 09:30:05 UTC"%string /\
  String.length (strftime (utcnow table_platform w_ok)) = 23%nat.
Proof.
  apply (now_utc_str_determines_the_second table_platform w_ok w_send_fails);
    [unfold valid_datetime; simpl; lia
    |unfold valid_datetime; simpl; lia
    |reflexivity].
Defined.


Lemma parsed_set_of_two_lists_is_the_union_witness :
  In 3 (_parse_id_list (Some ("1,2" ++ "," ++ "x, 3")%string)) <->
  In 3 (_parse_id_list (Some "1,2"%string)) \/
  In 3 (_parse_id_list (Some "x, 3"%string)).
Proof.
  apply parsed_set_of_two_lists_is_the_union.
  split; [reflexivity | simpl; lia].
Defined.


Lemma unset_watch_variables_report_joins_only_witness :
  handle table_platform bare_cfg (MemberJoin alice) w_ok =
  relay table_platform bare_cfg
    "alice joined : G at 2024-05-17 09:30:05 UTC" w_ok.
Proof.
  exact (unset_watch_variables_report_joins_only table_platform bare_cfg
           None (Some ""%string) (Some " , "%string)
           (MemberJoin alice) w_ok operator
           eq_refl eq_refl eq_refl I eq_refl eq_refl eq_refl).
Defined.


(** ** The scope check when the lookup fails, the loop as a whole, and
    the stamp read back *)

Section Whole.

Variable P : Platform.
Variable cfg : Config.

(** C1, as the program has it.  The operator is not in the member cache
    of the event's community and the remote lookup fails.  When the
    failure is one the program names (not found, forbidden, another
    failed request) [guild_is_watched] answers [False]; when it is any
    other exception, a timeout or a connection error, and the community
    passes the allowlist, the check raises it instead of answering.
    In no case does the check answer [True], and whatever the type of
    the event its handler neither enters [relay] nor sends. *)
Theorem operator_absent_never_relays
    (ev : gateway_event) (w w1 : world P) (e : exn) :
  let r := guild_is_watched P cfg (event_guild ev) w in
  get_member P w (event_guild ev) (MY_USER_ID cfg) = None ->
  fetch_member P (event_guild ev) (MY_USER_ID cfg) w = (inl e, w1) ->
  (In e [NotFound; Forbidden; HTTPException] -> res r = Returned false) /\
  (~ In e [NotFound; Forbidden; HTTPException] ->
   WATCH_GUILD_IDS cfg = []
   \/ In (guild_id (event_guild ev)) (WATCH_GUILD_IDS cfg) ->
   r = Run (Raised e) w1 [EvFetchMember (event_guild ev) (MY_USER_ID cfg)]) /\
  res r <> Returned true /\
  relay_calls (trace (handle P cfg ev w)) = [] /\
  sends (trace (handle P cfg ev w)) = [].
Proof.
  intros r Hcache Hfetch.
  assert (Hrun := guild_is_watched_run P cfg (event_guild ev) w).
  fold r in Hrun. rewrite Hcache, Hfetch in Hrun.
  assert (Hnot : res r <> Returned true).
  { rewrite Hrun. destruct (truthy _ && negb _); [discriminate|].
    destruct e; discriminate. }
  split; [|split; [|split; [exact Hnot|]]].
  - intros He. rewrite Hrun. destruct (truthy _ && negb _); [reflexivity|].
    simpl in He. destruct He as [<-|[<-|[<-|[]]]]; reflexivity.
  - intros He Hallow. rewrite Hrun.
    assert (Hgate : truthy (WATCH_GUILD_IDS cfg)
                    && negb (mem (guild_id (event_guild ev))
                               (WATCH_GUILD_IDS cfg)) = false).
    { destruct Hallow as [-> | Hin]; [reflexivity|].
      apply mem_In in Hin. rewrite Hin. apply andb_false_r. }
    rewrite Hgate. destruct e; try reflexivity; exfalso; apply He; simpl; auto.
  - now apply handle_not_watched.
Qed.

(** C2, as the program has it.  Past the two gates, take a watched id
    that the loop reaches, the ids before it having been handled without
    an exception, and that resolves there to a text, forum or category
    channel with both permission computations succeeding.  The handler
    is then: the scope check, the ids before, one call of [relay] with
    that channel's "gained access" line exactly when the member could
    not view the channel before and can view it after, and the ids
    after (if that call returned).  On the three other pairs nothing is
    done for the channel. *)
Theorem gained_access_reported_iff_edge_when_reached
    (before after_ : Member) (l1 l2 : list Z) (id : Z) (w : world P)
    (ch : Channel) (pb pa : Permissions) :
  let r := guild_is_watched P cfg (member_guild after_) w in
  let r1 := member_update_loop P cfg before after_ l1 (post r) in
  let w1 := post r1 in
  let line := (member_name after_ ++ " gained access to : #"
               ++ ch_name ch ++ " in "
               ++ guild_name (member_guild after_) ++ " at "
               ++ strftime (utcnow P w1))%string in
  let run := on_member_update P cfg before after_ w in
  WATCH_TEXT_CHANNEL_IDS cfg = (l1 ++ id :: l2)%list ->
  res r = Returned true ->
  res r1 = Returned tt ->
  guild_get_channel P w1 (member_guild after_) id = Some ch ->
  isinstance ch [TextChannel; ForumChannel; CategoryChannel] = true ->
  permissions_for P w1 ch before = inr pb ->
  permissions_for P w1 ch after_ = inr pa ->
  run =
    after (trace r ++ trace r1)
      (if negb (view_channel pb) && view_channel pa
       then (relay P cfg line ;;
             member_update_loop P cfg before after_ l2) w1
       else member_update_loop P cfg before after_ l2 w1) /\
  (view_channel pb = false /\ view_channel pa = true ->
   exists rest,
     relay_calls (trace run)
     = (relay_calls (trace r1) ++ line :: rest)%list) /\
  (~ (view_channel pb = false /\ view_channel pa = true) ->
   relay_calls (trace run)
   = (relay_calls (trace r1)
      ++ relay_calls
           (trace (member_update_loop P cfg before after_ l2 w1)))%list).
Proof.
  intros r r1 w1 line run HW Hres Hr1 Hch Hkind Hb Ha.
  assert (Hne : WATCH_TEXT_CHANNEL_IDS cfg <> [])
    by (rewrite HW; destruct l1; discriminate).
  assert (Hq : relay_calls (trace r) = [])
    by apply (proj1 (guild_is_watched_quiet P cfg _ w)).
  assert (Hrun : run =
    after (trace r ++ trace r1)
      (if negb (view_channel pb) && view_channel pa
       then (relay P cfg line ;;
             member_update_loop P cfg before after_ l2) w1
       else member_update_loop P cfg before after_ l2 w1)).
  { unfold run. rewrite (on_member_update_watched P cfg before after_ w Hne Hres).
    fold r. rewrite HW.
    rewrite (member_update_loop_reaches P cfg before after_ l1 l2 id (post r) Hr1).
    fold r1. fold w1. rewrite after_after. f_equal.
    rewrite bind_run, member_update_body_run, Hch, Hkind, Hb, Ha. fold line.
    destruct (negb (view_channel pb) && view_channel pa);
      [reflexivity | cbn [res post trace]; apply after_nil]. }
  split; [exact Hrun|]. split.
  - intros [Hvb Hva]. rewrite Hrun, Hvb, Hva. cbn [negb andb].
    unfold after. cbn [trace]. rewrite !relay_calls_app, Hq. cbn [app].
    rewrite bind_run.
    destruct (res (relay P cfg line w1)) eqn:Hrel; cbn [trace after];
      rewrite ?relay_calls_app, relay_calls_relay; cbn [app]; eauto.
  - intros Hno. rewrite Hrun.
    assert (Hedge : negb (view_channel pb) && view_channel pa = false).
    { destruct (view_channel pb), (view_channel pa); try reflexivity.
      exfalso. apply Hno. now split. }
    rewrite Hedge. unfold after. cbn [trace].
    now rewrite !relay_calls_app, Hq.
Qed.

(** C9.  A member joins a community for which the scope check answers
    [True]: the handler goes on with exactly one call of [relay], whose
    text is the member's name, [" joined : "], the community's name,
    [" at "] and a stamp.  The stamp is laid out as
    [YYYY-MM-DD HH:MM:SS UTC], and its six fields read back are the
    year, month, day, hour, minute and second of the UTC clock at that
    moment. *)
Theorem member_join_relays_one_stamped_line (member : Member) (w : world P) :
  let r := guild_is_watched P cfg (member_guild member) w in
  res r = Returned true ->
  valid_datetime (utcnow P (post r)) ->
  exists ts,
    on_member_join P cfg member w =
      after (trace r)
        (relay P cfg
           (member_name member ++ " joined : "
            ++ guild_name (member_guild member) ++ " at " ++ ts)%string
           (post r)) /\
    relay_calls (trace (on_member_join P cfg member w)) =
      [(member_name member ++ " joined : "
        ++ guild_name (member_guild member) ++ " at " ++ ts)%string] /\
    has_shape timestamp_pattern ts = true /\
    stamp_fields ts = utcnow P (post r) /\
    substring 19 4 ts = " UTC"%string /\
    String.length ts = 23%nat.
Proof.
  intros r Hres Hvalid. exists (strftime (utcnow P (post r))).
  assert (Hrun : on_member_join P cfg member w
                 = after (trace r)
                     (relay P cfg
                        (member_name member ++ " joined : "
                         ++ guild_name (member_guild member) ++ " at "
                         ++ strftime (utcnow P (post r)))%string (post r))).
  { unfold on_member_join, bind. fold r. rewrite Hres.
    unfold now_utc_str. cbn [res post trace negb]. now rewrite after_nil. }
  split; [exact Hrun|]. split.
  { rewrite Hrun. unfold after. cbn [trace].
    rewrite relay_calls_app, relay_calls_relay.
    unfold r. now rewrite (proj1 (guild_is_watched_quiet P cfg _ w)). }
  split; [now apply strftime_shape|].
  destruct (utcnow P (post r)) as [y mo d h mi s].
  unfold valid_datetime in Hvalid.
  cbn [year month day hour minute second] in Hvalid.
  destruct Hvalid as (Hy & Hmo & Hd & Hh & Hmi & Hs).
  unfold strftime. cbn [year month day hour minute second].
  destruct (zero_pad_4_reads_back y Hy) as [Ly Vy].
  destruct (zero_pad_2_reads_back mo ltac:(lia)) as [Lmo Vmo].
  destruct (zero_pad_2_reads_back d ltac:(lia)) as [Ld Vd].
  destruct (zero_pad_2_reads_back h ltac:(lia)) as [Lh Vh].
  destruct (zero_pad_2_reads_back mi ltac:(lia)) as [Lmi Vmi].
  destruct (zero_pad_2_reads_back s ltac:(lia)) as [Ls Vs].
  destruct (zero_pad 4 y) as [|y1 [|y2 [|y3 [|y4 [|? ?]]]]];
    try discriminate Ly.
  destruct (zero_pad 2 mo) as [|m1 [|m2 [|? ?]]]; try discriminate Lmo.
  destruct (zero_pad 2 d) as [|d1 [|d2 [|? ?]]]; try discriminate Ld.
  destruct (zero_pad 2 h) as [|h1 [|h2 [|? ?]]]; try discriminate Lh.
  destruct (zero_pad 2 mi) as [|i1 [|i2 [|? ?]]]; try discriminate Lmi.
  destruct (zero_pad 2 s) as [|s1 [|s2 [|? ?]]]; try discriminate Ls.
  unfold stamp_fields. cbn [append substring String.length].
  rewrite Vy, Vmo, Vd, Vh, Vmi, Vs. repeat split; reflexivity.
Qed.

End Whole.

Section WholeLoop.

Variable P : Platform.
Variable cfg : Config.

(** The loop body is the report due for its id, if one is due. *)
Lemma member_update_body_by_gain_line
    (before after_ : Member) (id : Z) (w : world P) :
  member_update_body P cfg before after_ id w =
  match gain_line P before after_ id w with
  | Some line => relay P cfg line w
  | None => Run (Returned tt) w []
  end.
Proof.
  rewrite member_update_body_run. unfold gain_line.
  destruct (guild_get_channel P w (member_guild after_) id) as [ch|];
    [|reflexivity].
  destruct (isinstance ch _); [|reflexivity].
  destruct (permissions_for P w ch before) as [e|pb]; [reflexivity|].
  destruct (permissions_for P w ch after_) as [e|pa]; [reflexivity|].
  destruct (negb (view_channel pb) && view_channel pa); reflexivity.
Qed.

Lemma member_update_loop_relays_expected
    (before after_ : Member) (ids : list Z) (w : world P) :
  relay_calls (trace (member_update_loop P cfg before after_ ids w))
  = expected_reports P cfg before after_ ids w.
Proof.
  revert w. induction ids as [|id rest IH]; intros w; [reflexivity|].
  cbn [member_update_loop expected_reports].
  rewrite bind_run, member_update_body_by_gain_line.
  destruct (gain_line P before after_ id w) as [line|].
  - pose proof (relay_calls_relay P cfg line w) as Hc.
    destruct (relay P cfg line w) as [[[]|e] w1 t]; cbn [res post trace after] in *.
    + now rewrite relay_calls_app, Hc, IH.
    + exact Hc.
  - cbn [res post trace after app]. apply IH.
Qed.

(** What one member update reports, exactly.  Past the gates the texts
    handed to [relay] are, in the order of the watch set, the "gained
    access" lines of the watched ids for which one is due in the state
    the loop reaches them in, one line for each such id and none for
    any other, up to and including the first report that raises; short
    of the gates nothing is reported. *)
Theorem member_update_relays_exactly_the_gains
    (before after_ : Member) (w : world P) :
  let r := guild_is_watched P cfg (member_guild after_) w in
  relay_calls (trace (on_member_update P cfg before after_ w)) =
  match WATCH_TEXT_CHANNEL_IDS cfg, res r with
  | _ :: _, Returned true =>
      expected_reports P cfg before after_ (WATCH_TEXT_CHANNEL_IDS cfg)
        (post r)
  | _, _ => []
  end.
Proof.
  cbv zeta. unfold on_member_update.
  destruct (WATCH_TEXT_CHANNEL_IDS cfg) as [|i0 ids] eqn:HW;
    cbn [truthy negb]; [reflexivity|].
  rewrite after_scope_check. cbv zeta.
  pose proof (proj1 (guild_is_watched_quiet P cfg (member_guild after_) w))
    as Hq.
  destruct (res (guild_is_watched P cfg (member_guild after_) w)) as [[]|e];
    cbn [trace after]; rewrite ?relay_calls_app, ?Hq; cbn [app];
    try reflexivity.
  apply member_update_loop_relays_expected.
Qed.

Lemma relay_raises_send_raised (text : string) (w : world P) (e : exn) :
  res (relay P cfg text w) = Raised e -> send_raised P cfg text w e.
Proof.
  rewrite relay_run. cbv zeta. unfold send_raised.
  destruct (resolve_relay_channel_returns P cfg w) as [o Ho].
  destruct (resolve_relay_channel P cfg w) as [r w1 t];
    cbn [res post trace] in *.
  subst r. destruct o as [ch|]; [|discriminate].
  destruct (isinstance ch [TextChannel]) eqn:Hk; [|discriminate].
  destruct (send P ch text w1) as [[x|[]] w2] eqn:Hs; [|discriminate].
  intros H. exists ch. rewrite Hs. cbn [fst].
  destruct x; inversion H; subst;
    repeat split; first [reflexivity | assumption | discriminate].
Qed.

Lemma member_update_loop_raises_at
    (before after_ : Member) (ids : list Z) (w : world P) (e : exn) :
  res (member_update_loop P cfg before after_ ids w) = Raised e ->
  exists l1 id l2,
    ids = (l1 ++ id :: l2)%list /\
    res (member_update_loop P cfg before after_ l1 w) = Returned tt /\
    res (member_update_body P cfg before after_ id
           (post (member_update_loop P cfg before after_ l1 w))) = Raised e /\
    member_update_loop P cfg before after_ ids w =
    after (trace (member_update_loop P cfg before after_ l1 w))
      (member_update_body P cfg before after_ id
         (post (member_update_loop P cfg before after_ l1 w))).
Proof.
  revert w. induction ids as [|id rest IH]; intros w; [discriminate|].
  cbn [member_update_loop]. rewrite bind_run.
  destruct (member_update_body P cfg before after_ id w) as [[[]|x] w1 t]
    eqn:Hbody; cbn [res post trace].
  - intros H. cbn [after res] in H.
    destruct (IH _ H) as (l1 & id' & l2 & -> & Hr1 & Hb & Hrun).
    exists (id :: l1), id', l2. split; [reflexivity|].
    cbn [member_update_loop]. rewrite !bind_run, Hbody.
    cbn [res post trace after] in *. rewrite Hr1.
    cbn [res post trace]. split; [reflexivity|]. split; [exact Hb|].
    rewrite Hrun. apply after_after.
  - intros H. inversion H; subst x.
    exists [], id, rest. split; [reflexivity|].
    cbn [member_update_loop ret res post trace]. split; [reflexivity|].
    rewrite Hbody. split; reflexivity.
Qed.

(** How a handler can fail.  A handler that ends by an exception ends
    in one of two ways.  Either its scope check raised it: the operator
    was not in the member cache and the remote lookup answered that
    exception, and the handler stopped there.  Or the check answered
    [True] and the handler's run is, after what came before, one call of
    [relay] whose send raised the exception, which was not a refusal:
    the call for the join or the voice line, made right after the check,
    or the call for the line due at the first watched text channel whose
    report failed.  The handlers raise nothing themselves. *)
Theorem handler_failure_is_its_lookup_or_its_send
    (ev : gateway_event) (w : world P) (e : exn) :
  let r := guild_is_watched P cfg (event_guild ev) w in
  res (handle P cfg ev w) = Raised e ->
  (get_member P w (event_guild ev) (MY_USER_ID cfg) = None /\
   fst (fetch_member P (event_guild ev) (MY_USER_ID cfg) w) = inl e /\
   handle P cfg ev w = Run (Raised e) (post r) (trace r)) \/
  (res r = Returned true /\
   match ev with
   | MemberUpdate before after_ =>
       exists l1 id l2 line,
         WATCH_TEXT_CHANNEL_IDS cfg = (l1 ++ id :: l2)%list /\
         let r1 := member_update_loop P cfg before after_ l1 (post r) in
         res r1 = Returned tt /\
         gain_line P before after_ id (post r1) = Some line /\
         handle P cfg ev w
         = after (trace r ++ trace r1) (relay P cfg line (post r1)) /\
         send_raised P cfg line (post r1) e
   | _ =>
       exists line,
         handle P cfg ev w = after (trace r) (relay P cfg line (post r)) /\
         send_raised P cfg line (post r) e
   end).
Proof.
  intros r.
  destruct ev as [m | b a | m b a]; cbn [handle event_guild] in *.
  - unfold on_member_join. rewrite after_scope_check. cbv zeta. fold r.
    destruct (res r) as [[]|x] eqn:Hr; cbn [res]; try discriminate.
    + rewrite bind_run. unfold now_utc_str. cbn [res post trace].
      rewrite after_nil. intros H. right. split; [reflexivity|].
      eexists. split; [reflexivity|].
      now apply relay_raises_send_raised.
    + intros H. inversion H; subst x. left.
      destruct (guild_is_watched_raises P cfg _ w e Hr). auto.
  - unfold on_member_update.
    destruct (truthy (WATCH_TEXT_CHANNEL_IDS cfg)); cbn [negb];
      [|discriminate].
    rewrite after_scope_check. cbv zeta. fold r.
    destruct (res r) as [[]|x] eqn:Hr; cbn [res]; try discriminate.
    + intros H. right. split; [reflexivity|].
      destruct (member_update_loop_raises_at _ _ _ _ _ H)
        as (l1 & id & l2 & HW & Hr1 & Hb & Hrun).
      rewrite member_update_body_by_gain_line in Hb, Hrun.
      destruct (gain_line P b a id
                  (post (member_update_loop P cfg b a l1 (post r))))
        as [line|] eqn:Hg; [|discriminate Hb].
      exists l1, id, l2, line. cbv zeta.
      split; [exact HW|]. split; [exact Hr1|]. split; [exact Hg|].
      split; [rewrite Hrun; apply after_after|].
      now apply relay_raises_send_raised.
    + intros H. inversion H; subst x. left.
      destruct (guild_is_watched_raises P cfg _ w e Hr). auto.
  - destruct (truthy (WATCH_VOICE_CHANNEL_IDS cfg)) eqn:Hw;
      [|unfold on_voice_state_update; rewrite Hw; discriminate].
    destruct (res r) as [[]|x] eqn:Hr.
    + rewrite on_voice_state_update_watched;
        [|destruct (WATCH_VOICE_CHANNEL_IDS cfg); [discriminate Hw
                                                  |discriminate]
         |exact Hr].
      fold r. cbn [res].
      destruct (voice_line _ _ _) as [line|]; [|discriminate].
      intros H. right. split; [reflexivity|].
      exists line. split; [reflexivity|].
      now apply relay_raises_send_raised.
    + unfold on_voice_state_update. rewrite Hw. cbn [negb].
      rewrite after_scope_check. cbv zeta. fold r. rewrite Hr. discriminate.
    + unfold on_voice_state_update. rewrite Hw. cbn [negb].
      rewrite after_scope_check. cbv zeta. fold r. rewrite Hr. cbn [res].
      intros H. inversion H; subst x. left.
      destruct (guild_is_watched_raises P cfg _ w e Hr). auto.
Qed.

End WholeLoop.

(** ** At the scenarios *)

(** A lookup that times out: the check does not answer [False], it
    raises. *)
Lemma operator_lookup_timeout_is_raised :
  get_member table_platform w_lookup_times_out guild_G 10 = None /\
  fst (fetch_member table_platform guild_G 10 w_lookup_times_out)
  = inl OtherException /\
  res (guild_is_watched table_platform demo_cfg guild_G w_lookup_times_out)
  = Raised OtherException /\
  res (guild_is_watched table_platform demo_cfg guild_G w_lookup_times_out)
  <> Returned false.
Proof. repeat split; try reflexivity. discriminate. Qed.

Lemma operator_absent_never_relays_witness :
  res (guild_is_watched table_platform demo_cfg guild_G w_operator_absent)
  = Returned false /\
  relay_calls
    (trace (handle table_platform demo_cfg
              (VoiceStateUpdate alice {| vs_channel := Some afk |}
                 {| vs_channel := Some voice_lounge |})
              w_operator_absent)) = [] /\
  sends
    (trace (handle table_platform demo_cfg
              (VoiceStateUpdate alice {| vs_channel := Some afk |}
                 {| vs_channel := Some voice_lounge |})
              w_operator_absent)) = [].
Proof.
  destruct (operator_absent_never_relays table_platform demo_cfg
              (VoiceStateUpdate alice {| vs_channel := Some afk |}
                 {| vs_channel := Some voice_lounge |})
              w_operator_absent w_operator_absent NotFound
              eq_refl eq_refl) as (Hf & _ & _ & Hr & Hs).
  split; [apply Hf; simpl; auto | split; assumption].
Defined.

(** Two watched channels gained at once, the send failing with a server
    error: the second channel, whose permission went from false to true,
    is never reported, and the handler ends by the exception. *)
Lemma later_gain_is_not_reported_after_failed_relay :
  guild_get_channel table_platform w_two_gains_send_fails guild_G 43
  = Some rules /\
  isinstance rules [TextChannel; ForumChannel; CategoryChannel] = true /\
  permissions_for table_platform w_two_gains_send_fails rules alice_before
  = inr {| view_channel := false |} /\
  permissions_for table_platform w_two_gains_send_fails rules alice
  = inr {| view_channel := true |} /\
  relay_calls
    (trace (on_member_update table_platform two_channel_cfg alice_before
              alice w_two_gains_send_fails))
  = ["alice gained access to : #general in G at 2024-05-17 09:30:05 UTC"
     %string] /\
  res (on_member_update table_platform two_channel_cfg alice_before alice
         w_two_gains_send_fails)
  = Raised HTTPException.
Proof. repeat split; reflexivity. Qed.

Lemma gained_access_reported_iff_edge_when_reached_witness :
  exists rest,
    relay_calls
      (trace (on_member_update table_platform two_channel_cfg alice_before
                alice w_two_gains))
    = (["alice gained access to : #general in G at 2024-05-17 09:30:05 UTC"
        %string]
       ++ "alice gained access to : #rules in G at 2024-05-17 09:30:05 UTC"
          %string :: rest)%list.
Proof.
  exact (proj1 (proj2
           (gained_access_reported_iff_edge_when_reached table_platform
              two_channel_cfg alice_before alice [42] [] 43 w_two_gains
              rules {| view_channel := false |} {| view_channel := true |}
              eq_refl eq_refl eq_refl eq_refl eq_refl eq_refl eq_refl))
         (conj eq_refl eq_refl)).
Defined.

Lemma member_join_relays_one_stamped_line_witness :
  exists ts,
    relay_calls (trace (on_member_join table_platform demo_cfg alice w_ok))
    = [("alice joined : G at " ++ ts)%string] /\
    stamp_fields ts = demo_clock.
Proof.
  destruct (member_join_relays_one_stamped_line table_platform demo_cfg
              alice w_ok eq_refl) as (ts & _ & Hc & _ & Hf & _).
  - unfold valid_datetime; simpl; lia.
  - exists ts. split; [exact Hc | exact Hf].
Defined.

Lemma handler_failure_is_its_lookup_or_its_send_witness :
  (get_member table_platform w_send_fails guild_G 10 = None /\
   fst (fetch_member table_platform guild_G 10 w_send_fails)
   = inl HTTPException /\
   handle table_platform demo_cfg (MemberJoin alice) w_send_fails
   = Run (Raised HTTPException)
       (post (guild_is_watched table_platform demo_cfg guild_G w_send_fails))
       (trace (guild_is_watched table_platform demo_cfg guild_G
                 w_send_fails))) \/
  (res (guild_is_watched table_platform demo_cfg guild_G w_send_fails)
   = Returned true /\
   exists line,
     handle table_platform demo_cfg (MemberJoin alice) w_send_fails
     = after (trace (guild_is_watched table_platform demo_cfg guild_G
                       w_send_fails))
         (relay table_platform demo_cfg line
            (post (guild_is_watched table_platform demo_cfg guild_G
                     w_send_fails))) /\
     send_raised table_platform demo_cfg line
       (post (guild_is_watched table_platform demo_cfg guild_G w_send_fails))
       HTTPException).
Proof.
  exact (handler_failure_is_its_lookup_or_its_send table_platform demo_cfg
           (MemberJoin alice) w_send_fails HTTPException eq_refl).
Defined.

(** Both gains are reported, in the order of the watch set, when the
    sends succeed. *)
Example both_gains_are_reported :
  relay_calls
    (trace (on_member_update table_platform two_channel_cfg alice_before
              alice w_two_gains))
  = ["alice gained access to : #general in G at 2024-05-17 09:30:05 UTC"
     %string;
     "alice gained access to : #rules in G at 2024-05-17 09:30:05 UTC"
     %string].
Proof. reflexivity. Qed.
